(** * DiffAR learner (learner.py): noise schedule, forward noising,
      overlap-masked loss, checkpoint pools and the epoch loop.

    The development is a shallow embedding of [DiffARLearner] and [mytrain].
    Tensors are lists (a [N,T] tensor is a list of N rows); the neural
    network, the optimiser, the log-mel transform and torch's random
    generator are opaque functions; everything that mutates [self] or the
    file system is written in a state-and-exception monad. *)

From Stdlib Require Import String.
From Stdlib Require Import ZArith QArith Qabs List Bool Lia Lqa.
From Stdlib Require Import Floats.SpecFloat.
Import ListNotations.

Local Open Scope Z_scope.

(* ================================================================== *)
(** * Scalars *)

(** The arithmetic the learner performs on tensor elements and on Python
    floats.  One scalar type stands for both.  The operations carry no laws:
    what is proved for every instance holds for IEEE arithmetic too. *)
Class Num (F : Type) : Type := {
  fzero : F;
  fone : F;
  fadd : F -> F -> F;
  fsub : F -> F -> F;
  fmul : F -> F -> F;
  fdiv : F -> F -> F;
  fabs : F -> F;
  of_int : Z -> F;            (* int -> float promotion *)
  fltb : F -> F -> bool;      (* [x < y] *)
  fisnan : F -> bool          (* [torch.isnan] *)
}.

(** The one law used: [x < x] is false (also for NaN). *)
Class NumLaws (F : Type) {num : Num F} : Prop := {
  fltb_irrefl : forall x : F, fltb x x = false
}.

(** [x ** 0.5] *)
Class Sqrt (F : Type) : Type := fsqrt : F -> F.

(** Exact rational arithmetic: the idealised reading of the float code
    (no rounding, no NaN, no infinities; a division by zero, which floats
    answer with an infinity or NaN, gives 0). *)
#[export] Instance Num_Q : Num Q := {
  fzero := 0%Q;
  fone := 1%Q;
  fadd := Qplus;
  fsub := Qminus;
  fmul := Qmult;
  fdiv := Qdiv;
  fabs := Qabs;
  of_int := inject_Z;
  fltb := fun x y => negb (Qle_bool y x);
  fisnan := fun _ => false
}.

(** IEEE 754 binary32 (torch.float32), round to nearest even, from the
    standard library's executable specification of floats. *)
Definition binary32 : Type := spec_float.
Definition b32_prec : Z := 24.
Definition b32_emax : Z := 128.

Definition b32_of_int (z : Z) : binary32 :=
  binary_normalize b32_prec b32_emax z 0 false.

Definition b32_isnan (x : binary32) : bool :=
  match x with S754_nan => true | _ => false end.

#[export] Instance Num_binary32 : Num binary32 := {
  fzero := S754_zero false;
  fone := b32_of_int 1;
  fadd := SFadd b32_prec b32_emax;
  fsub := SFsub b32_prec b32_emax;
  fmul := SFmul b32_prec b32_emax;
  fdiv := SFdiv b32_prec b32_emax;
  fabs := SFabs;
  of_int := b32_of_int;
  fltb := SFltb;
  fisnan := b32_isnan
}.

#[export] Instance Sqrt_binary32 : Sqrt binary32 := SFsqrt b32_prec b32_emax.

(* ================================================================== *)
(** * Exceptions and results *)

Inductive Exn : Type :=
| NaNLoss (step : Z)          (* RuntimeError('Detected NaN loss at step {step}.') *)
| FileNotFoundError
| FileExistsError
| UnpicklingError             (* torch.load on a file that is not a checkpoint *)
| AttributeError (attr : string)
| IndexError
| ShapeError                  (* torch: operands cannot be broadcast together *)
| ZeroDivisionError
| AssertionError
| TypeError
| OSError                     (* too many levels of symbolic links *)
| StateMismatch               (* load_state_dict: keys or shapes differ *)
| ProcessGroupError           (* torch.distributed: no process group to destroy *)
| During (context : Exn) (e : Exn).
                              (* [e] raised while [context] was being handled *)

Inductive Res (A : Type) : Type :=
| Ok (a : A)
| Raise (e : Exn).
Arguments Ok {A} a.
Arguments Raise {A} e.

Definition res_bind {A B} (r : Res A) (k : A -> Res B) : Res B :=
  match r with
  | Ok a => k a
  | Raise e => Raise e
  end.

(* ================================================================== *)
(** * Tensors and the loss *)

Section Tensors.
Context {F : Type} {num : Num F}.

Definition Tensor1 : Type := list F.
Definition Tensor2 : Type := list (list F).

(** The part of the resolved configuration the learner reads. *)
Record Params : Type := mkParams {
  noise_schedule : list F;
  mask_loss_using_overlap : Z;   (* -1: no overlap mask; n >= 0: margin *)
  spec_loss_coeff : F;
  batch_size_train : Z;
  batch_size_validation : Z;
  val_every_n_epochs : Z;
  summery_every_n_epochs : Z;
  max_steps : option Z;
  test : bool;
  replica_id_attempt : Z
}.

Fixpoint map2 {A B C} (f : A -> B -> C) (l : list A) (m : list B) : list C :=
  match l, m with
  | a :: l', b :: m' => f a b :: map2 f l' m'
  | _, _ => []
  end.

(** [np.cumprod]: the running product, started at the first element. *)
Fixpoint cumprod_from (acc : F) (l : list F) : list F :=
  match l with
  | [] => []
  | x :: l' => let acc' := fmul acc x in acc' :: cumprod_from acc' l'
  end.

Definition cumprod (l : list F) : list F :=
  match l with
  | [] => []
  | x :: l' => x :: cumprod_from x l'
  end.

(** [__init__]: [beta = np.array(noise_schedule)],
    [noise_level = np.cumprod(1 - beta)]. *)
Definition init_noise_level (beta : list F) : Tensor1 :=
  cumprod (map (fun b => fsub fone b) beta).

(** [tensor.sum()], elements taken in row-major order. *)
Definition tsum (l : Tensor1) : F := fold_left fadd l fzero.
Definition tsum2 (t : Tensor2) : F := tsum (concat t).

(** [F.l1_loss(input, target, reduction='none')] *)
Definition l1_loss_none (input target : Tensor2) : Tensor2 :=
  map2 (map2 (fun x y => fabs (fsub x y))) input target.

(** [F.l1_loss(input, target)], reduction 'mean'. *)
Definition l1_loss_flat (input target : Tensor1) : F :=
  let d := map2 (fun x y => fabs (fsub x y)) input target in
  fdiv (tsum d) (of_int (Z.of_nat (length d))).

Definition l1_loss (input target : Tensor2) : F :=
  l1_loss_flat (concat input) (concat target).

(** [row[:k].zero_()] for [k >= 0]: a slice stops at the end of the row. *)
Definition zero_prefix (k : nat) (row : Tensor1) : Tensor1 :=
  repeat fzero (Nat.min k (length row)) ++ skipn k row.

(** [loss[row, ...]] updated in place; [None] when [row] is out of range. *)
Fixpoint update_row (row : nat) (f : Tensor1 -> Tensor1) (loss : Tensor2)
  : option Tensor2 :=
  match loss, row with
  | [], _ => None
  | r :: rest, O => Some (f r :: rest)
  | r :: rest, S row' =>
      match update_row row' f rest with
      | Some rest' => Some (r :: rest')
      | None => None
      end
  end.

(** The loop [for row, k in enumerate(overlap)] of
    [get_loss_with_overlap_mask], started at index [row]. *)
Fixpoint mask_rows (samples_before : Z) (row : nat) (overlap : list Z)
    (loss : Tensor2) : Res Tensor2 :=
  match overlap with
  | [] => Ok loss
  | k :: rest =>
      let k := Z.max 0 (k - samples_before) in
      match update_row row (zero_prefix (Z.to_nat k)) loss with
      | Some loss' => mask_rows samples_before (S row) rest loss'
      | None => Raise IndexError
      end
  end.

(** [non_overlap = win_len - overlap + samples_before] *)
Definition non_overlap (win_len : Z) (overlap : list Z) (samples_before : Z)
  : list Z :=
  map (fun k => win_len - k + samples_before) overlap.

Definition div_row (row : Tensor1) (d : Z) : Tensor1 :=
  map (fun x => fdiv x (of_int d)) row.

(** [loss / non_overlap.unsqueeze(1)]: a [N,T] tensor by a [M,1] tensor.
    Row by row when [M = N]; a dimension of size one is broadcast; any
    other pair of shapes is refused by torch. *)
Definition div_rows (loss : Tensor2) (den : list Z) : Res Tensor2 :=
  if Nat.eqb (length den) (length loss) then Ok (map2 div_row loss den)
  else match den, loss with
       | [d], _ => Ok (map (fun row => div_row row d) loss)
       | _, [row] => Ok (map (div_row row) den)
       | _, _ => Raise ShapeError
       end.

(** [loss.shape[1]] (read off the first row). *)
Definition shape1 (t : Tensor2) : Z := Z.of_nat (length (hd [] t)).

(** [DiffARLearner.get_loss_with_overlap_mask] *)
Definition get_loss_with_overlap_mask (params : Params)
    (noise predicted : Tensor2) (overlap : list Z) : Res F :=
  if mask_loss_using_overlap params <? 0 then Raise AssertionError
  else
    let loss := l1_loss_none noise predicted in
    let samples_before := mask_loss_using_overlap params in
    res_bind (mask_rows samples_before 0 overlap loss) (fun loss =>
    let win_len := shape1 loss in
    let non_overlap := non_overlap win_len overlap samples_before in
    res_bind (div_rows loss non_overlap) (fun loss =>
    let loss := map (fun row => div_row row (batch_size_train params)) loss in
    Ok (tsum2 loss))).

(** The loss as the specification words it: the absolute error of sample
    [j] of a row is dropped when [j < max(0, overlap - margin)], each
    error is divided by [T - overlap + margin] and by the batch size, and
    everything is summed. *)
Fixpoint masked_row_from (j : nat) (mask_until : Z) (noise predicted : Tensor1)
  : Tensor1 :=
  match noise, predicted with
  | x :: noise', y :: predicted' =>
      (if Z.of_nat j <? mask_until then fzero else fabs (fsub x y))
        :: masked_row_from (S j) mask_until noise' predicted'
  | _, _ => []
  end.

Definition spec_row_terms (margin batch_size T : Z)
    (noise predicted : Tensor1) (k : Z) : Tensor1 :=
  map (fun e => fdiv (fdiv e (of_int (T - k + margin))) (of_int batch_size))
      (masked_row_from 0 (Z.max 0 (k - margin)) noise predicted).

Fixpoint spec_terms (margin batch_size T : Z)
    (noise predicted : Tensor2) (overlap : list Z) : Tensor2 :=
  match noise, predicted, overlap with
  | n :: noise', p :: predicted', k :: overlap' =>
      spec_row_terms margin batch_size T n p k
        :: spec_terms margin batch_size T noise' predicted' overlap'
  | _, _, _ => []
  end.

Definition spec_masked_loss (margin batch_size T : Z)
    (noise predicted : Tensor2) (overlap : list Z) : F :=
  tsum2 (spec_terms margin batch_size T noise predicted overlap).

End Tensors.

Arguments Params F : clear implicits.
Arguments Tensor1 F : clear implicits.
Arguments Tensor2 F : clear implicits.

(* ================================================================== *)
(** * Checkpoint directories *)

(** The two kinds of name the learner writes with [filename='weights']:
    [weights-{step}.pt] and the alias [weights.pt]. *)
Inductive Name : Type :=
| WeightsStep (step : Z)
| WeightsLink.

Definition name_eqb (a b : Name) : bool :=
  match a, b with
  | WeightsStep s, WeightsStep s' => s =? s'
  | WeightsLink, WeightsLink => true
  | _, _ => false
  end.

(** The directory a pool lives in: the working directory, or
    [{cwd}/{tgt_folder}]. *)
Inductive Folder : Type :=
| Cwd
| Sub (tgt_folder : string).

Definition folder_eqb (a b : Folder) : bool :=
  match a, b with
  | Cwd, Cwd => true
  | Sub x, Sub y => String.eqb x y
  | _, _ => false
  end.

Section Files.
(** [SD]: the dictionary [state_dict()] builds. *)
Context {SD : Type}.

(** What [torch.load] finds in a regular file: a pickled state
    dictionary, or bytes on which it raises [e]. *)
Inductive Payload : Type :=
| Pickle (sd : SD)
| Unreadable (e : Exn).

Inductive Node : Type :=
| File (p : Payload)
| Symlink (target : Name).

Record Entry : Type := mkEntry {
  e_name : Name;
  e_node : Node;
  e_mtime : Z
}.

(** The [*.pt] entries of one directory. *)
Definition Dir : Type := list Entry.
Definition FS : Type := Folder -> Dir.

Definition fs_set (fs : FS) (f : Folder) (d : Dir) : FS :=
  fun g => if folder_eqb g f then d else fs g.

Fixpoint lookup (n : Name) (d : Dir) : option Node :=
  match d with
  | [] => None
  | e :: d' => if name_eqb (e_name e) n then Some (e_node e) else lookup n d'
  end.

Definition remove (n : Name) (d : Dir) : Dir :=
  filter (fun e => negb (name_eqb (e_name e) n)) d.

(** Opening a path follows symbolic links (at most 40 of them). *)
Fixpoint resolve (fuel : nat) (d : Dir) (n : Name) : Res (Name * Payload) :=
  match lookup n d with
  | None => Raise FileNotFoundError
  | Some (File p) => Ok (n, p)
  | Some (Symlink t) =>
      match fuel with
      | O => Raise OSError
      | S fuel' => resolve fuel' d t
      end
  end.

Definition max_links : nat := 40.

(** [torch.load(path)] *)
Definition torch_load (d : Dir) (n : Name) : Res SD :=
  match resolve max_links d n with
  | Ok (_, Pickle sd) => Ok sd
  | Ok (_, Unreadable e) => Raise e
  | Raise e => Raise e
  end.

(** The name a write to [n] lands on: [n] itself, or the end of the
    chain of links that starts at [n]. *)
Fixpoint write_target (fuel : nat) (d : Dir) (n : Name) : Res Name :=
  match lookup n d with
  | Some (Symlink t) =>
      match fuel with
      | O => Raise OSError
      | S fuel' => write_target fuel' d t
      end
  | _ => Ok n
  end.

(** [torch.save(obj, path)] at time [now]: create or overwrite. *)
Definition torch_save (now : Z) (sd : SD) (n : Name) (d : Dir) : Res Dir :=
  res_bind (write_target max_links d n) (fun n' =>
  Ok (mkEntry n' (File (Pickle sd)) now :: remove n' d)).

(** [os.path.islink] *)
Definition islink (n : Name) (d : Dir) : bool :=
  match lookup n d with
  | Some (Symlink _) => true
  | _ => false
  end.

(** [os.unlink] *)
Definition unlink (n : Name) (d : Dir) : Dir := remove n d.

(** [os.symlink(src, dst)] at time [now]. *)
Definition symlink (now : Z) (src dst : Name) (d : Dir) : Res Dir :=
  match lookup dst d with
  | Some _ => Raise FileExistsError
  | None => Ok (mkEntry dst (Symlink src) now :: d)
  end.

(** [ls -t]: newest first.  A symbolic link is listed with its own
    modification time.  Entries of equal time keep their order. *)
Fixpoint insert_by_mtime (e : Entry) (l : Dir) : Dir :=
  match l with
  | [] => [e]
  | x :: l' =>
      if e_mtime x <=? e_mtime e then e :: l
      else x :: insert_by_mtime e l'
  end.

Definition ls_t (d : Dir) : Dir := fold_right insert_by_mtime [] d.

(** [rm `ls -t {path}/*.pt | awk 'NR>4'`]: what is left are the first
    four lines of the listing. *)
Definition keep : nat := 4.
Definition prune (d : Dir) : Dir := firstn keep (ls_t d).

(** The file-system part of [save_to_checkpoint] and
    [save_to_min_checkpoint] on the pool's directory: write
    [weights-{step}.pt], replace the alias, prune.  Returns the outcome
    and the directory left behind (two clock ticks). *)
Definition save_in_dir (now : Z) (sd : SD) (step : Z) (d : Dir)
  : Res unit * Dir :=
  let save_name := WeightsStep step in
  let link_name := WeightsLink in
  match torch_save now sd save_name d with
  | Raise e => (Raise e, d)
  | Ok d =>
      let d := if islink link_name d then unlink link_name d else d in
      match symlink (now + 1) save_name link_name d with
      | Raise e => (Raise e, d)
      | Ok d => (Ok tt, prune d)
      end
  end.








End Files.

Arguments Payload SD : clear implicits.
Arguments Node SD : clear implicits.
Arguments Entry SD : clear implicits.
Arguments Dir SD : clear implicits.
Arguments FS SD : clear implicits.

(* ================================================================== *)
(** * The learner *)

(** The collaborators the learner only calls: the network (with
    [squeeze(1)] applied to its output); the backward pass with gradient
    clipping and the optimiser step, as a function of the weights and of
    everything the loss was computed from, giving the new weights and the
    gradient norm; [load_state_dict] of network and optimiser; the log-mel
    transform; the cross-replica average; torch's random generator. *)
Class External (F W Cond Rng : Type) : Type := {
  model : W -> list (list F) -> list (list F) -> list nat -> Cond -> Cond
          -> list (list F);
  optimizer_step : W -> list (list F) -> list (list F) -> list nat
                   -> Cond -> Cond -> list (list F) -> option (list Z)
                   -> W * F;
  load_weights : W -> W -> Res unit * W;
  log_mel : list (list F) -> list F;
  distrib_average : F -> F;
  randint : Rng -> nat -> nat -> list nat * Rng;
  randn_like : Rng -> list (list F) -> list (list F) * Rng
}.

(** How a call that loops ended in the model: it returned, or the bound
    put on the number of epochs was reached first. *)
Inductive Loop : Type :=
| Returned
| OutOfFuel.

(** Python's [a % b] on integers. *)
Definition py_mod (a b : Z) : Res Z :=
  if b =? 0 then Raise ZeroDivisionError else Ok (a mod b).

(** [except FileNotFoundError] looks at the exception raised, whatever it
    was raised during. *)
Fixpoint is_file_not_found (e : Exn) : bool :=
  match e with
  | FileNotFoundError => true
  | During _ e' => is_file_not_found e'
  | _ => false
  end.

Section Learner.
Context {F W Cond Rng : Type} {num : Num F} {sq : Sqrt F}
  {ext : External F W Cond Rng}.

(** One batch as the loader yields it, after [squeeze(1)] of the audio. *)
Record Batch : Type := mkBatch {
  clean : Tensor2 F;
  conditioned_audio : Tensor2 F;
  conditioned_phonemes : Cond;
  conditioned_energy : Cond;
  overlap : list Z
}.

(** A data loader: the batches one pass over it yields. *)
Definition Loader : Type := list Batch.

(** [state_dict()] *)
Record StateDict : Type := mkStateDict {
  sd_step : Z;
  sd_weights : W;               (* 'model' and 'optimizer' *)
  sd_params : Params F
}.

(** What the run writes, newest first. *)
Inductive Event : Type :=
| LogInfo (msg : string)        (* a call of logger.info *)
| LogLoaded (step : Z)          (* 'loaded checkpoint from: {path} ({step} steps)' *)
| LogTrainLosses (denoise spec : F)
| LogWarning (msg : string)
| Print (msg : string)
| PrintInt (z : Z)
| AddScalar (key : string) (value : F) (step : Z)
| LogMel                        (* one application of the log-mel transform *)
| OptimizerStep                 (* optimizer.step() *)
| DestroyProcessGroup.

(** The fields of [self]. *)
Record Learner : Type := mkLearner {
  params : Params F;
  step : Z;
  weights : W;
  grad_norm : option F;         (* set by train_step *)
  noise_level : Tensor1 F;
  log_mel_spec : option ((Tensor2 F) -> (Tensor1 F));
                                (* set by __init__ when spec_loss_coeff > 0 *)
  is_master : bool;
  summary_writer : bool;        (* set by __init__ when is_master and not test *)
  train_ds : Loader;
  valid_ds : option Loader;
  test_ds : option Loader
}.

(** What lies outside [self]. *)
Record World : Type := mkWorld {
  rng : Rng;
  fs : FS StateDict;
  clock : Z;
  process_group : bool;         (* torch.distributed is initialised *)
  events : list Event
}.

Definition St : Type := (Learner * World)%type.

Definition set_step (z : Z) (l : Learner) : Learner :=
  mkLearner (params l) z (weights l) (grad_norm l) (noise_level l)
    (log_mel_spec l) (is_master l) (summary_writer l)
    (train_ds l) (valid_ds l) (test_ds l).

Definition set_weights (w : W) (l : Learner) : Learner :=
  mkLearner (params l) (step l) w (grad_norm l) (noise_level l)
    (log_mel_spec l) (is_master l) (summary_writer l)
    (train_ds l) (valid_ds l) (test_ds l).

Definition set_grad_norm (g : F) (l : Learner) : Learner :=
  mkLearner (params l) (step l) (weights l) (Some g) (noise_level l)
    (log_mel_spec l) (is_master l) (summary_writer l)
    (train_ds l) (valid_ds l) (test_ds l).

Definition set_summary_writer (b : bool) (l : Learner) : Learner :=
  mkLearner (params l) (step l) (weights l) (grad_norm l) (noise_level l)
    (log_mel_spec l) (is_master l) b
    (train_ds l) (valid_ds l) (test_ds l).

Definition set_rng (g : Rng) (w : World) : World :=
  mkWorld g (fs w) (clock w) (process_group w) (events w).

Definition set_fs (f : FS StateDict) (now : Z) (w : World) : World :=
  mkWorld (rng w) f now (process_group w) (events w).

Definition set_process_group (b : bool) (w : World) : World :=
  mkWorld (rng w) (fs w) (clock w) b (events w).

Definition add_event (e : Event) (w : World) : World :=
  mkWorld (rng w) (fs w) (clock w) (process_group w) (e :: events w).

(** ** State and exceptions *)

Definition M (A : Type) : Type := St -> Res A * St.

Definition ret {A} (a : A) : M A := fun st => (Ok a, st).

Definition bind {A B} (m : M A) (k : A -> M B) : M B :=
  fun st =>
    match m st with
    | (Ok a, st') => k a st'
    | (Raise e, st') => (Raise e, st')
    end.

Definition raise {A} (e : Exn) : M A := fun st => (Raise e, st).

Definition lift {A} (r : Res A) : M A := fun st => (r, st).

Definition get_self : M Learner := fun st => (Ok (fst st), st).
Definition get_world : M World := fun st => (Ok (snd st), st).

Definition modify_self (f : Learner -> Learner) : M unit :=
  fun st => (Ok tt, (f (fst st), snd st)).

Definition modify_world (f : World -> World) : M unit :=
  fun st => (Ok tt, (fst st, f (snd st))).

Definition emit (e : Event) : M unit := modify_world (add_event e).

Notation "x <- c ;; k" := (bind c (fun x => k))
  (at level 61, c at next level, right associativity).
Notation "' p <- c ;; k" := (bind c (fun p => k))
  (at level 61, p pattern, c at next level, right associativity).
Notation "c ;;; k" := (bind c (fun _ => k))
  (at level 61, right associativity).

Definition logger_info (msg : string) : M unit := emit (LogInfo msg).
Definition print (msg : string) : M unit := emit (Print msg).
Definition print_int (z : Z) : M unit := emit (PrintInt z).

(** ** Checkpoints *)

Definition state_dict (self : Learner) : StateDict :=
  mkStateDict (step self) (weights self) (params self).

Definition load_state_dict (state_dict : StateDict) : M unit :=
  self <- get_self ;;
  let (r, w) := load_weights (weights self) (sd_weights state_dict) in
  modify_self (set_weights w) ;;;
  lift r ;;;
  modify_self (set_step (sd_step state_dict)).

(** Both save functions run [save_in_dir] on their directory. *)
Definition save_in (folder : Folder) : M unit :=
  self <- get_self ;;
  world <- get_world ;;
  let (r, d) :=
    save_in_dir (clock world) (state_dict self) (step self) (fs world folder) in
  modify_world (set_fs (fs_set (fs world) folder d) (clock world + 2)) ;;;
  lift r.

Definition save_to_checkpoint : M unit := save_in Cwd.

Definition save_to_min_checkpoint (tgt_folder : string) : M unit :=
  save_in (Sub tgt_folder).

Definition restore_from_checkpoint : M bool :=
  fun st =>
    let try :=
      world <- get_world ;;
      checkpoint <- lift (torch_load (fs world Cwd) WeightsLink) ;;
      load_state_dict checkpoint ;;;
      emit (LogLoaded (sd_step checkpoint)) ;;;
      ret true in
    match try st with
    | (Raise e, st') =>
        if is_file_not_found e
        then (logger_info "training from scratch" ;;; ret false) st'
        else (Raise e, st')
    | r => r
    end.

(** ** Construction *)

(** [__init__] up to the call of [restore_from_checkpoint]. *)
Definition new_learner (model_weights : W) (train_ds : Loader)
    (valid_ds test_ds : option Loader) (is_master : bool)
    (params : Params F) : Learner :=
  mkLearner params 0 model_weights None
    (init_noise_level (noise_schedule params))
    (if fltb fzero (spec_loss_coeff params) then Some log_mel else None)
    is_master false train_ds valid_ds test_ds.

Definition init (model_weights : W) (train_ds : Loader)
    (valid_ds test_ds : option Loader) (is_master : bool)
    (params : Params F) (world : World) : Res unit * St :=
  (restore_from_checkpoint ;;;
   (if is_master && negb (test params)
    then modify_self (set_summary_writer true) else ret tt) ;;;
   logger_info "running in: {cwd}" ;;;
   logger_info "model size: {parameters}")
    (new_learner model_weights train_ds valid_ds test_ds is_master params,
     world).

(** ** One step *)

Definition draw_randint (high n : nat) : M (list nat) :=
  world <- get_world ;;
  let (t, g) := randint (rng world) high n in
  modify_world (set_rng g) ;;;
  ret t.

Definition draw_randn_like (x : Tensor2 F) : M (Tensor2 F) :=
  world <- get_world ;;
  let (noise, g) := randn_like (rng world) x in
  modify_world (set_rng g) ;;;
  ret noise.

(** [level[t]] for a tensor [t] of indices. *)
Fixpoint gather (level : Tensor1 F) (t : list nat) : Res (Tensor1 F) :=
  match t with
  | [] => Ok []
  | i :: t' =>
      match nth_error level i with
      | None => Raise IndexError
      | Some r => res_bind (gather level t') (fun rs => Ok (r :: rs))
      end
  end.

(** [a * x] for [a] of shape [N,1] and [x] of shape [N,T]. *)
Definition scale_rows (a : Tensor1 F) (x : Tensor2 F) : Tensor2 F :=
  map2 (fun s row => map (fmul s) row) a x.

(** [train_step], from [N, T = audio.shape] to [noisy_audio]. *)
Definition train_step_noisy_audio (audio : Tensor2 F)
  : M (list nat * (Tensor2 F) * (Tensor2 F)) :=
  self <- get_self ;;
  let N := length audio in
  t <- draw_randint (length (noise_schedule (params self))) N ;;
  noise_scale <- lift (gather (noise_level self) t) ;;
  let noise_scale_sqrt := map fsqrt noise_scale in
  noise <- draw_randn_like audio ;;
  let noisy_audio :=
    map2 (map2 fadd)
      (scale_rows noise_scale_sqrt audio)
      (scale_rows (map (fun r => fsqrt (fsub fone r)) noise_scale) noise) in
  ret (t, noise, noisy_audio).

(** [self.log_mel_spec(x)] *)
Definition apply_log_mel_spec (x : Tensor2 F) : M (Tensor1 F) :=
  self <- get_self ;;
  match log_mel_spec self with
  | None => raise (AttributeError "log_mel_spec")
  | Some transform => emit LogMel ;;; ret (transform x)
  end.

Definition train_step (audio audio_conditioner : Tensor2 F)
    (phonemes_conditioner Energy_conditioner : Cond)
    (overlap : option (list Z)) : M (F * F * option F) :=
  ' (t, noise, noisy_audio) <- train_step_noisy_audio audio ;;
  self <- get_self ;;
  let predicted :=
    model (weights self) noisy_audio audio_conditioner t
      phonemes_conditioner Energy_conditioner in
  loss_denoise <-
    match overlap with
    | None => ret (l1_loss noise predicted)
    | Some overlap =>
        lift (get_loss_with_overlap_mask (params self) noise predicted overlap)
    end ;;
  ' (loss, loss_spec) <-
    (if fltb fzero (spec_loss_coeff (params self)) then
       a <- apply_log_mel_spec noise ;;
       b <- apply_log_mel_spec predicted ;;
       let loss_spec := l1_loss_flat a b in
       let loss_coeff := spec_loss_coeff (params self) in
       ret (fadd (fmul (fsub fone loss_coeff) loss_denoise)
                 (fmul loss_coeff loss_spec),
            Some loss_spec)
     else ret (loss_denoise, None) : M (F * option F)) ;;
  let (w, g) :=
    optimizer_step (weights self) noisy_audio audio_conditioner t
      phonemes_conditioner Energy_conditioner noise overlap in
  modify_self (fun l => set_grad_norm g (set_weights w l)) ;;;
  emit OptimizerStep ;;;
  ret (loss, loss_denoise, loss_spec).

(** [valid_loss], from [N, T = audio.shape] to [noisy_audio]. *)
Definition valid_loss_noisy_audio (audio : Tensor2 F)
  : M (list nat * (Tensor2 F) * (Tensor2 F)) :=
  self <- get_self ;;
  let N := length audio in
  t <- draw_randint (length (noise_schedule (params self))) N ;;
  noise_scale <- lift (gather (noise_level self) t) ;;
  let noise_scale_sqrt := map fsqrt noise_scale in
  noise <- draw_randn_like audio ;;
  let noisy_audio :=
    map2 (map2 fadd)
      (scale_rows noise_scale_sqrt audio)
      (scale_rows (map (fun r => fsqrt (fsub fone r)) noise_scale) noise) in
  ret (t, noise, noisy_audio).

Definition valid_loss (audio audio_conditioner : Tensor2 F)
    (phonemes_conditioner Energy_conditioner : Cond)
    (overlap : option (list Z)) : M (F * F * option F) :=
  ' (t, noise, noisy_audio) <- valid_loss_noisy_audio audio ;;
  self <- get_self ;;
  let predicted :=
    model (weights self) noisy_audio audio_conditioner t
      phonemes_conditioner Energy_conditioner in
  loss_denoise <-
    match overlap with
    | None => ret (l1_loss noise predicted)
    | Some overlap =>
        lift (get_loss_with_overlap_mask (params self) noise predicted overlap)
    end ;;
  if fltb fzero (spec_loss_coeff (params self)) then
    a <- apply_log_mel_spec noise ;;
    b <- apply_log_mel_spec predicted ;;
    let loss_spec := l1_loss_flat a b in
    let loss_coeff := spec_loss_coeff (params self) in
    ret (fadd (fmul (fsub fone loss_coeff) loss_denoise)
              (fmul loss_coeff loss_spec),
         loss_denoise, Some loss_spec)
  else ret (loss_denoise, loss_denoise, None).

(** ** Epochs *)

Definition add_losses (acc : F * F * F) (loss loss_denoise : F)
    (loss_spec : option F) : F * F * F :=
  let '(epoch_loss, epoch_loss_denoise, epoch_loss_spec) := acc in
  match loss_spec with
  | Some loss_spec =>
      (fadd epoch_loss loss, fadd epoch_loss_denoise loss_denoise,
       fadd epoch_loss_spec loss_spec)
  | None => (fadd epoch_loss loss, epoch_loss_denoise, epoch_loss_spec)
  end.

(** [overlap.to(device)] when the mask is enabled, else [None]. *)
Definition batch_overlap (self : Learner) (data : Batch) : option (list Z) :=
  if 0 <=? mask_loss_using_overlap (params self)
  then Some (overlap data) else None.

(** The [for data in dataset] loop of [train_epoch]. *)
Fixpoint train_epoch_loop (dataset : Loader) (acc : F * F * F)
  : M (F * F * F) :=
  match dataset with
  | [] => ret acc
  | data :: rest =>
      self <- get_self ;;
      ' (loss, loss_denoise, loss_spec) <-
        train_step (clean data) (conditioned_audio data)
          (conditioned_phonemes data) (conditioned_energy data)
          (batch_overlap self data) ;;
      let acc := add_losses acc loss loss_denoise loss_spec in
      if fisnan loss then
        self <- get_self ;; raise (NaNLoss (step self))
      else
        modify_self (fun l => set_step (step l + 1) l) ;;;
        train_epoch_loop rest acc
  end.

Definition train_epoch (dataset : Loader) : M F :=
  ' (epoch_loss, epoch_loss_denoise, epoch_loss_spec) <-
    train_epoch_loop dataset (fzero, fzero, fzero) ;;
  self <- get_self ;;
  let len := Z.of_nat (length (train_ds self)) in
  if len =? 0 then raise ZeroDivisionError
  else
    let epoch_loss := distrib_average (fdiv epoch_loss (of_int len)) in
    (if fltb fzero epoch_loss_denoise && fltb fzero epoch_loss_spec then
       emit (LogTrainLosses
               (distrib_average (fdiv epoch_loss_denoise (of_int len)))
               (distrib_average (fdiv epoch_loss_spec (of_int len))))
     else ret tt) ;;;
    ret epoch_loss.

(** The [for data in dataset] loop of [eval_epoch]. *)
Fixpoint eval_epoch_loop (dataset : Loader) (epoch_loss_val : F) (n : nat)
  : M (F * nat) :=
  match dataset with
  | [] => ret (epoch_loss_val, n)
  | data :: rest =>
      self <- get_self ;;
      ' (loss_val, _, _) <-
        valid_loss (clean data) (conditioned_audio data)
          (conditioned_phonemes data) (conditioned_energy data)
          (batch_overlap self data) ;;
      let epoch_loss_val := fadd epoch_loss_val loss_val in
      if fisnan epoch_loss_val then
        self <- get_self ;; raise (NaNLoss (step self))
      else eval_epoch_loop rest epoch_loss_val (S n)
  end.

Definition eval_epoch (dataset : Loader) : M F :=
  ' (epoch_loss_val, n) <- eval_epoch_loop dataset fzero 0%nat ;;
  self <- get_self ;;
  match valid_ds self with
  | None => raise TypeError
  | Some valid =>
      if negb (Nat.eqb n (length valid)) then raise AssertionError
      else
        let len := Z.of_nat (length valid) in
        if len =? 0 then raise ZeroDivisionError
        else ret (distrib_average (fdiv epoch_loss_val (of_int len)))
  end.

(** [test]: [eval_epoch] returns one number, which cannot be unpacked
    into [pesq, stoi]. *)
Definition test_ : M unit :=
  self <- get_self ;;
  match test_ds self with
  | None => emit (LogWarning "test dataset is not set, skipping test")
  | Some ds => eval_epoch ds ;;; raise TypeError
  end.

Fixpoint add_scalars (d : list (string * F)) : M unit :=
  match d with
  | [] => ret tt
  | (k, v) :: d' =>
      self <- get_self ;; emit (AddScalar k v (step self)) ;;; add_scalars d'
  end.

Definition log_dict (d : list (string * F)) : M unit :=
  self <- get_self ;;
  if is_master self then
    if summary_writer self then add_scalars d
    else raise (AttributeError "summary_writer")
  else ret tt.

(** The validation block of [train]; returns the new [min_loss_val]. *)
Definition train_validation (epoch : Z) (min_loss_val : F) : M F :=
  self <- get_self ;;
  r <- lift (py_mod epoch (val_every_n_epochs (params self))) ;;
  match valid_ds self with
  | Some valid =>
      if (r =? 0) && negb (epoch =? 0) then
        print "choose to do val" ;;;
        epoch_loss_val <- eval_epoch valid ;;
        log_dict [("valid/loss"%string, epoch_loss_val)] ;;;
        if is_master self && fltb epoch_loss_val min_loss_val then
          print "loss_val < min_loss_val" ;;;
          print "choose to do checkpoint to min_val folder" ;;;
          save_to_min_checkpoint "min_val" ;;;
          ret epoch_loss_val
        else ret min_loss_val
      else ret min_loss_val
  | None => ret min_loss_val
  end.

(** The checkpoint block of [train]; returns the new [min_loss]. *)
Definition train_checkpoint (epoch : Z) (loss min_loss : F) : M F :=
  self <- get_self ;;
  if is_master self then
    r <- lift (py_mod epoch (summery_every_n_epochs (params self))) ;;
    if r =? 0 then
      print "choose to do checkpoint" ;;;
      save_to_checkpoint ;;;
      if fltb loss min_loss then
        print "loss<min_loss" ;;;
        print "choose to do checkpoint" ;;;
        save_to_min_checkpoint "min" ;;;
        ret loss
      else ret min_loss
    else ret min_loss
  else ret min_loss.

(** The body of the [while True] of [train] after [train_epoch], up to
    [print(self.step)]. *)
Definition train_after_epoch (epoch : Z) (loss min_loss min_loss_val : F)
  : M (F * F) :=
  self <- get_self ;;
  g <- match grad_norm self with
       | Some g => ret g
       | None => raise (AttributeError "grad_norm")
       end ;;
  log_dict [("train/loss"%string, loss); ("train/grad_norm"%string, g)] ;;;
  min_loss_val <- train_validation epoch min_loss_val ;;
  min_loss <- train_checkpoint epoch loss min_loss ;;
  self <- get_self ;;
  print_int (step self) ;;;
  ret (min_loss, min_loss_val).

(** The body of the [while True] of [train], up to [print(self.step)]. *)
Definition train_body (epoch : Z) (min_loss min_loss_val : F) : M (F * F) :=
  print "start training" ;;;
  self <- get_self ;;
  loss <- train_epoch (train_ds self) ;;
  train_after_epoch epoch loss min_loss min_loss_val.

(** [while True]: at most [fuel] epochs. *)
Fixpoint train_loop (fuel : nat) (max_steps : option Z) (epoch : Z)
    (min_loss min_loss_val : F) : M Loop :=
  match fuel with
  | O => ret OutOfFuel
  | S fuel' =>
      ' (min_loss, min_loss_val) <- train_body epoch min_loss min_loss_val ;;
      self <- get_self ;;
      if match max_steps with
         | Some max_steps => max_steps <=? step self
         | None => false
         end
      then
        print "choose to finish" ;;;
        print_int (step self) ;;;
        ret Returned
      else train_loop fuel' max_steps (epoch + 1) min_loss min_loss_val
  end.

Definition train (fuel : nat) (max_steps : option Z) : M Loop :=
  train_loop fuel max_steps 0 (of_int 100) (of_int 100).

(** ** The entry point *)

(** [torch.distributed.destroy_process_group()]: refused by torch when no
    process group was initialised. *)
Definition destroy_process_group : M unit :=
  world <- get_world ;;
  if process_group world then
    modify_world (set_process_group false) ;;; emit DestroyProcessGroup
  else raise ProcessGroupError.

(** A bare [except:] clause: [handler] runs on any exception; what the
    handler raises has the caught exception as its context. *)
Definition try_except {A} (body : M A) (handler : M A) : M A :=
  fun st =>
    match body st with
    | (Raise e, st') =>
        match handler st' with
        | (Raise e', st'') => (Raise (During e e'), st'')
        | r => r
        end
    | r => r
    end.

(** The [except:] clause of [mytrain]. *)
Definition mytrain_handler : M Loop :=
  print "stratin exept" ;;; destroy_process_group ;;; ret Returned.

(** [mytrain], from the construction of the learner on.  [model_weights]
    is the network [DiffAR(params)] builds, the loaders are those built
    from the configured data sets, [params] has its noise schedule already
    expanded, and [fuel] bounds the number of epochs. *)
Definition mytrain (replica_id replica_count : Z) (params : Params F)
    (model_weights : W) (train_ds : Loader) (valid_ds test_ds : option Loader)
    (fuel : nat) (world : World) : Res Loop * St :=
  let is_distributed := 1 <? replica_count in
  let world :=
    if is_distributed then set_process_group true world else world in
  let replica_id :=
    if replica_id_attempt params =? 3 then 3 else replica_id in
  match init model_weights train_ds valid_ds test_ds (replica_id =? 0)
          params world with
  | (Raise e, st) => (Raise e, st)
  | (Ok _, st) =>
      try_except
        (if test params then test_ ;;; ret Returned
         else train fuel (max_steps params))
        mytrain_handler
        st
  end.

(** ** Notions used to state facts about the learner *)

(** The total loss as the specification words it:
    [(1-c)*denoise_loss + c*spec_loss]. *)
Definition blend (c denoise_loss spec_loss : F) : F :=
  fadd (fmul (fsub fone c) denoise_loss) (fmul c spec_loss).

(** The denoise loss of a step, before any blending. *)
Definition denoise_loss (params : Params F) (noise predicted : Tensor2 F)
    (overlap : option (list Z)) : Res F :=
  match overlap with
  | None => Ok (l1_loss noise predicted)
  | Some overlap => get_loss_with_overlap_mask params noise predicted overlap
  end.

(** The two attributes [__init__] derives from the configuration are as
    [__init__] set them (nothing assigns them afterwards). *)
Definition as_constructed (self : Learner) : Prop :=
  noise_level self = init_noise_level (noise_schedule (params self))
  /\ log_mel_spec self
     = (if fltb fzero (spec_loss_coeff (params self))
        then Some log_mel else None).

(** A computation that leaves [self.step] as it found it. *)
Definition keeps_step {A} (m : M A) : Prop :=
  forall st, step (fst (snd (m st))) = step (fst st).

End Learner.

Arguments Batch F Cond : clear implicits.
Arguments Loader F Cond : clear implicits.
Arguments StateDict F W : clear implicits.
Arguments Event F : clear implicits.
Arguments Learner F W Cond : clear implicits.
Arguments World F W Rng : clear implicits.
Arguments St F W Cond Rng : clear implicits.
Arguments M F W Cond Rng A : clear implicits.

(** The forward-noising step as the specification words it: example [i]
    has timestep [t[i]] and retention [r = retention[t[i]]], and its noisy
    row is [sqrt(r) * audio + sqrt(1 - r) * noise]. *)
Section ForwardNoiseSpec.
Context {F : Type} {num : Num F} {sq : Sqrt F}.

Fixpoint spec_forward_noise (retention : Tensor1 F) (t : list nat)
    (audio noise : Tensor2 F) : Tensor2 F :=
  match t, audio, noise with
  | i :: t', a :: audio', n :: noise' =>
      let r := nth i retention fzero in
      map2 (fun x e => fadd (fmul (fsqrt r) x) (fmul (fsqrt (fsub fone r)) e))
           a n
        :: spec_forward_noise retention t' audio' noise'
  | _, _, _ => []
  end.

End ForwardNoiseSpec.

(** The intervals (0,1) and (0,1]. *)
Definition unit_open (b : Q) : Prop := (0 < b /\ b < 1)%Q.
Definition unit_half_open (x : Q) : Prop := (0 < x /\ x <= 1)%Q.

(** The retention curve as the specification words it:
    [retention[t]] is the product of [1 - beta[i]] over [i <= t]. *)
Fixpoint qprod (l : list Q) : Q :=
  match l with
  | [] => 1%Q
  | x :: l' => (x * qprod l')%Q
  end.

Definition spec_retention (beta : list Q) (t : nat) : Q :=
  qprod (map (fun b => (1 - b)%Q) (firstn (S t) beta)).

(* ================================================================== *)
(** * A concrete run in binary32, for evaluation *)

Module Demo.

Definition zeros (x : Tensor2 binary32) : Tensor2 binary32 :=
  map (map (fun _ => fzero)) x.

(** A network that predicts zero noise, an optimiser that counts its
    steps, a generator that always draws timestep 0 and noise 1.0. *)
Definition ext : External binary32 nat unit nat := {|
  model := fun _ noisy _ _ _ _ => zeros noisy;
  optimizer_step := fun w _ _ _ _ _ _ _ => (S w, fone);
  load_weights := fun _ w' => (Ok tt, w');
  log_mel := fun x => concat x;
  distrib_average := fun x => x;
  randint := fun g _ n => (repeat 0%nat n, S g);
  randn_like := fun g x => (map (map (fun _ => fone)) x, S g)
|}.

(** The same, with a network whose output has overflowed. *)
Definition ext_inf : External binary32 nat unit nat := {|
  model := fun _ noisy _ _ _ _ =>
             map (map (fun _ => S754_infinity false)) noisy;
  optimizer_step := fun w _ _ _ _ _ _ _ => (S w, fone);
  load_weights := fun _ w' => (Ok tt, w');
  log_mel := fun x => concat x;
  distrib_average := fun x => x;
  randint := fun g _ n => (repeat 0%nat n, S g);
  randn_like := fun g x => (map (map (fun _ => fone)) x, S g)
|}.

(** The same as [ext], with a network the stored weights do not fit. *)
Definition ext_strict : External binary32 nat unit nat := {|
  model := fun _ noisy _ _ _ _ => zeros noisy;
  optimizer_step := fun w _ _ _ _ _ _ _ => (S w, fone);
  load_weights := fun w _ => (Raise StateMismatch, w);
  log_mel := fun x => concat x;
  distrib_average := fun x => x;
  randint := fun g _ n => (repeat 0%nat n, S g);
  randn_like := fun g x => (map (map (fun _ => fone)) x, S g)
|}.

Definition half : binary32 := fdiv fone (of_int 2).

(** Schedule [0.5, 0.5]; [margin], [c] and [max_steps] as given; training
    batches of 2, validation batches of 1. *)
Definition params_of (margin : Z) (c : binary32) (max_steps : option Z)
  : Params binary32 :=
  mkParams [half; half] margin c 2 1 1 1 max_steps false 0.

(** One example of two samples, with its overlap. *)
Definition batch1 (a b : Z) (k : Z) : Batch binary32 unit :=
  mkBatch [[of_int a; of_int b]] [[fzero; fzero]] tt tt [k].

Definition empty_fs : FS (StateDict binary32 nat) := fun _ => [].

Definition world0 : World binary32 nat nat :=
  mkWorld 0%nat empty_fs 0 false [].

(** A working directory that holds a checkpoint written at step 0. *)
Definition checkpoint0 (P : Params binary32) : Dir (StateDict binary32 nat) :=
  [mkEntry WeightsLink (Symlink (WeightsStep 0)) 1;
   mkEntry (WeightsStep 0) (File (Pickle (mkStateDict 0 0%nat P))) 0].

Definition world_restored (P : Params binary32) : World binary32 nat nat :=
  mkWorld 0%nat (fs_set empty_fs Cwd (checkpoint0 P)) 2 false [].

(** A working directory whose checkpoint cannot be unpickled. *)
Definition world_unreadable : World binary32 nat nat :=
  mkWorld 0%nat
    (fs_set empty_fs Cwd
       [mkEntry WeightsLink (Symlink (WeightsStep 7)) 1;
        mkEntry (WeightsStep 7) (File (Unreadable UnpicklingError)) 0])
    2 false [].

Definition world_distributed : World binary32 nat nat :=
  mkWorld 0%nat empty_fs 0 true [].

(** A learner as [__init__] builds it: no overlap mask, coefficient 0, one
    training batch. *)
Definition learner_plain : Learner binary32 nat unit :=
  new_learner (ext := ext) 0%nat [batch1 1 2 0] None None true
    (params_of (-1) fzero (Some 0)).

(** The same with coefficient 0.5. *)
Definition learner_blend : Learner binary32 nat unit :=
  new_learner (ext := ext) 0%nat [batch1 1 2 0] None None true
    (params_of (-1) half (Some 0)).

(** Margin 0 and training batches of 2, for a validation batch of 1. *)
Definition learner_masked : Learner binary32 nat unit :=
  new_learner (ext := ext) 0%nat [batch1 1 2 0] (Some [batch1 1 2 1]) None
    true (params_of 0 fzero (Some 0)).

(** A run whose second batch is wholly overlapped, with margin 0: the
    state [__init__] leaves, in a distributed run and in a single
    process. *)
Definition nan_loader : Loader binary32 unit := [batch1 1 2 0; batch1 1 2 2].

Definition nan_start (world : World binary32 nat nat)
  : St binary32 nat unit nat :=
  snd (init (ext := ext) 0%nat nan_loader None None true
         (params_of 0 fzero (Some 0)) world).

(** A run with [max_steps = 0] that starts from the checkpoint of step 0. *)
Definition params_budget0 : Params binary32 := params_of (-1) fzero (Some 0).

Definition budget0_start : St binary32 nat unit nat :=
  snd (init (ext := ext) 0%nat [batch1 1 2 0] None None true
         params_budget0 (world_restored params_budget0)).

(** Rational inputs for the loss: two rows of four samples. *)
Definition params_q : Params Q :=
  mkParams [] 1 0%Q 2 1 1 1 None false 0.
Definition noise_q : Tensor2 Q := [[1; 1; 1; 1]; [1; 1; 1; 1]]%Q.
Definition predicted_q : Tensor2 Q := [[0; 0; 0; 0]; [0; 0; 0; 0]]%Q.


End Demo.

(* ================================================================== *)
(** * Relations between the state before and after a computation *)

Section Frames.
Context {F W Cond Rng : Type} {num : Num F} {sq : Sqrt F}
  {ext : External F W Cond Rng}.

(** [self] is what it was. *)
Definition same_self (st st' : St F W Cond Rng) : Prop := fst st' = fst st.

(** The attributes [__init__] sets from its arguments are what they were. *)
Definition same_setup (st st' : St F W Cond Rng) : Prop :=
  params (fst st') = params (fst st)
  /\ train_ds (fst st') = train_ds (fst st)
  /\ valid_ds (fst st') = valid_ds (fst st)
  /\ test_ds (fst st') = test_ds (fst st)
  /\ is_master (fst st') = is_master (fst st)
  /\ noise_level (fst st') = noise_level (fst st)
  /\ log_mel_spec (fst st') = log_mel_spec (fst st).

(** The file system and the process group are what they were. *)
Definition same_files (st st' : St F W Cond Rng) : Prop :=
  fs (snd st') = fs (snd st)
  /\ clock (snd st') = clock (snd st)
  /\ process_group (snd st') = process_group (snd st).

(** Whatever the outcome of [m], the states before and after it are
    related by [R]. *)
Definition stable (R : St F W Cond Rng -> St F W Cond Rng -> Prop) {A}
    (m : M F W Cond Rng A) : Prop :=
  forall st, R st (snd (m st)).

End Frames.

Section Guards.
Context {F W Cond Rng : Type} {num : Num F} {sq : Sqrt F}
  {ext : External F W Cond Rng}.

(** The replica is not the coordinating one. *)
Definition not_master (st : St F W Cond Rng) : Prop :=
  is_master (fst st) = false.

(** From a state where [P] holds, [m] ends in a state where [P] holds
    and that is related to the first by [R]. *)
Definition guarded (P : St F W Cond Rng -> Prop)
    (R : St F W Cond Rng -> St F W Cond Rng -> Prop) {A}
    (m : M F W Cond Rng A) : Prop :=
  forall st, P st -> R st (snd (m st)) /\ P (snd (m st)).

End Guards.

(* ================================================================== *)
(** * What the overlap mask leaves of a tensor *)

Section Unmasked.
Context {F : Type} {num : Num F}.

(** Row [i] of a [N,T] tensor from index [max(0, overlap[i] - margin)] on:
    the samples that [get_loss_with_overlap_mask] does not zero. *)
Definition unmasked (margin : Z) (t : Tensor2 F) (overlap : list Z)
  : Tensor2 F :=
  map2 (fun row k => skipn (Z.to_nat (Z.max 0 (k - margin))) row) t overlap.

End Unmasked.


Section Groups.
Context {F W Cond Rng : Type} {num : Num F} {sq : Sqrt F}
  {ext : External F W Cond Rng}.

(** The process group is there, or not, as it was. *)
Definition same_group (st st' : St F W Cond Rng) : Prop :=
  process_group (snd st') = process_group (snd st).

End Groups.
(* ================================================================== *)
(** * Segments, phonemes and the overlap zone (utils_for_inference.py) *)

From Stdlib Require Import Qround.

(** Python's [round] on a float: the nearest integer, ties to the even
    one.  On NaN it raises [ValueError] and on an infinity
    [OverflowError]: [None] here. *)
Class Round (F : Type) : Type := fround : F -> option Z.

Definition round_half_even (q : Q) : Z :=
  let f := Qfloor q in
  match Qcompare (q - inject_Z f) (1 # 2) with
  | Lt => f
  | Gt => f + 1
  | Eq => if Z.even f then f else f + 1
  end.

#[export] Instance Round_Q : Round Q := fun q => Some (round_half_even q).

(** The assertions of the module, with the numbers their messages print. *)
Inductive Assertion : Type :=
| NoPhonemeInWindow      (* There must be at list one phoneme in a current window *)
| NoPhonemeInOverlap     (* There must be at list one phoneme in the overlap area *)
| MissedCase             (* There is at least one missed case *)
| SignalLength (got expected : Z)
                         (* some how {got} and {expected} are different *)
| EnergyLength (phonemes energy : Z)
                         (* some how {phonemes} and {energy} are different *)
| NoPhonemes.            (* There are no phonemes in the phonemes tensor. *)

Inductive PyExn : Type :=
| AssertionFailed (a : Assertion)
| KeyError (key : string)
| RoundError             (* round() of NaN or of an infinity *)
| NegativeDimension      (* torch: a tensor of negative length *)
| PyIndexError
| UnboundLocalError (name : string)
| UnpackError.           (* ValueError: too many values to unpack *)

Inductive Py (A : Type) : Type :=
| Value (a : A)
| Error (e : PyExn).
Arguments Value {A} a.
Arguments Error {A} e.

Definition py_bind {A B} (r : Py A) (k : A -> Py B) : Py B :=
  match r with
  | Value a => k a
  | Error e => Error e
  end.

Definition REPRESENT_LENGTH : Z := 128.
Definition TOTAL_AVAILABLE_PHONEMES : Z := 72.

Definition phoneme_to_index_dict : list (string * Z) :=
  [(EmptyString, 1); ("AA0", 2); ("AA1", 3); ("AA2", 4); ("AE0", 5);
   ("AE1", 6); ("AE2", 7); ("AH0", 8); ("AH1", 9); ("AH2", 10);
   ("AO0", 11); ("AO1", 12); ("AO2", 13); ("AW0", 14); ("AW1", 15);
   ("AW2", 16); ("AY0", 17); ("AY1", 18); ("AY2", 19); ("B", 20);
   ("CH", 21); ("D", 22); ("DH", 23); ("EH0", 24); ("EH1", 25);
   ("EH2", 26); ("ER0", 27); ("ER1", 28); ("ER2", 29); ("EY0", 30);
   ("EY1", 31); ("EY2", 32); ("F", 33); ("G", 34); ("HH", 35);
   ("IH0", 36); ("IH1", 37); ("IH2", 38); ("IY0", 39); ("IY1", 40);
   ("IY2", 41); ("JH", 42); ("K", 43); ("L", 44); ("M", 45); ("N", 46);
   ("NG", 47); ("OW0", 48); ("OW1", 49); ("OW2", 50); ("OY0", 51);
   ("OY1", 52); ("OY2", 53); ("P", 54); ("R", 55); ("S", 56); ("SH", 57);
   ("T", 58); ("TH", 59); ("UH0", 60); ("UH1", 61); ("UH2", 62);
   ("UW0", 63); ("UW1", 64); ("UW2", 65); ("V", 66); ("W", 67); ("Y", 68);
   ("Z", 69); ("ZH", 70); ("spn", 71); ("sil", 72)]%string.

(** [d[key]] *)
Fixpoint dict_get (d : list (string * Z)) (key : string) : Py Z :=
  match d with
  | [] => Error (KeyError key)
  | (k, v) :: d' => if String.eqb k key then Value v else dict_get d' key
  end.

(** [l[start:stop]] for a list or one dimension of a tensor: a negative
    index counts from the end, and both are clipped to the length. *)
Definition slice_bound (len i : Z) : Z :=
  if i <? 0 then Z.max 0 (i + len) else Z.min i len.

Definition py_slice {A} (l : list A) (start stop : Z) : list A :=
  let len := Z.of_nat (length l) in
  let s := slice_bound len start in
  let e := slice_bound len stop in
  firstn (Z.to_nat (e - s)) (skipn (Z.to_nat s) l).

Section Utils.
Context {F : Type} {num : Num F} {rnd : Round F}.

(** [textgrid.Interval] *)
Record Interval : Type := mkInterval {
  minTime : F;
  maxTime : F;
  mark : string
}.

(** [info_taken_phonemes[j].maxTime*16000 - start_p] *)
Definition overlap_of (start_p : Z) (phoneme : Interval) : F :=
  fsub (fmul (maxTime phoneme) (of_int 16000)) (of_int start_p).

(** The [while] loop of [get_overlap_duration].  [j] is
    [desirable_phonemes - i + 1]: the loop goes on while
    [overlap_duration > window_length/2] and [j >= 1], reads index
    [j - 1] and adds one to [i]. *)
Fixpoint overlap_walk (start_p : Z) (half_window : F)
    (info_taken_phonemes : list Interval) (j : nat) (overlap_duration : F)
  : Py F :=
  match j with
  | O => Value overlap_duration
  | S j' =>
      if fltb half_window overlap_duration then
        match nth_error info_taken_phonemes j' with
        | Some phoneme =>
            overlap_walk start_p half_window info_taken_phonemes j'
              (overlap_of start_p phoneme)
        | None => Error PyIndexError
        end
      else Value overlap_duration
  end.

Definition get_overlap_duration (start_p : Z)
    (info_taken_phonemes : list Interval) (window_length : Z) : Py Z :=
  let total_phonemes := Z.of_nat (length info_taken_phonemes) in
  if negb (1 <=? total_phonemes) then Error (AssertionFailed NoPhonemeInWindow)
  else
    let desirable_phonemes := Z.abs ((- total_phonemes) / 3) in
    if negb (1 <=? desirable_phonemes)
    then Error (AssertionFailed NoPhonemeInOverlap)
    else
      let half_window := fdiv (of_int window_length) (of_int 2) in
      match nth_error info_taken_phonemes (Z.to_nat (desirable_phonemes - 1))
      with
      | None => Error PyIndexError
      | Some phoneme =>
          py_bind
            (overlap_walk start_p half_window info_taken_phonemes
               (Z.to_nat (desirable_phonemes - 1))
               (overlap_of start_p phoneme))
            (fun overlap_duration =>
               match fround overlap_duration, fround half_window with
               | Some a, Some b => Value (Z.min a b)
               | _, _ => Error RoundError
               end)
      end.

(** [sample_segment].  [randint a b] is what [random.randint(a, b)]
    answers at this call.  The second component is the pair of indices,
    present when [ret_idx] is set. *)
Definition sample_segment (randint : Z -> Z -> Z) (audio : Tensor2 F)
    (n_samples : Z) (ret_idx : bool) : Tensor2 F * option (Z * Z) :=
  if n_samples <? shape1 audio then
    let diff := shape1 audio - n_samples in
    let start := randint 0 diff in
    let end_ := start + n_samples in
    let new_audio := map (fun row => py_slice row start end_) audio in
    if ret_idx then (new_audio, Some (start, end_)) else (new_audio, None)
  else
    if ret_idx then (audio, Some (0, shape1 audio - 1)) else (audio, None).

(** [build_phoneme_and_energy_representation].  [cur_energy] is a vector;
    a number (a tensor without dimensions) is a vector of one element,
    which [repeat] treats alike. *)
Definition build_phoneme_and_energy_representation (total_phoneme_len : Z)
    (phoneme_numer : Z) (cur_energy : Tensor1 F)
  : Py (Tensor1 F * Tensor1 F) :=
  let represent_sign :=
    fdiv (of_int phoneme_numer) (of_int TOTAL_AVAILABLE_PHONEMES) in
  if total_phoneme_len <? 0 then Error NegativeDimension
  else
    Value (repeat represent_sign (Z.to_nat total_phoneme_len),
           concat (repeat cur_energy (Z.to_nat total_phoneme_len))).

(** The four variables the loop of [Build_excisting_phonemes_sec_approach]
    extends. *)
Record Taken : Type := mkTaken {
  list_taken_phonemes : list (Z * Z);
  list_info_taken_phonemes : list Interval;
  conditioned_phonemes_signal : Tensor1 F;
  conditioned_energy_signal : Tensor1 F
}.

Definition nothing_taken : Taken := mkTaken [] [] [] [].

(** The body the four taking branches share; they differ in
    [total_phoneme_length] only. *)
Definition take (phoneme : Interval) (cur_energy : Tensor1 F)
    (total_phoneme_length : Z) (acc : Taken) : Py Taken :=
  py_bind (dict_get phoneme_to_index_dict (mark phoneme)) (fun index =>
  py_bind (build_phoneme_and_energy_representation total_phoneme_length
             index cur_energy) (fun rep =>
  Value (mkTaken
           (list_taken_phonemes acc ++ [(index, total_phoneme_length)])
           (list_info_taken_phonemes acc ++ [phoneme])
           (conditioned_phonemes_signal acc ++ fst rep)
           (conditioned_energy_signal acc ++ snd rep)))).

(** [round(phoneme.minTime * sr)], [round(phoneme.maxTime * sr)] *)
Definition frames_of (sr : Z) (phoneme : Interval) : option (Z * Z) :=
  match fround (fmul (minTime phoneme) (of_int sr)) with
  | None => None
  | Some start_phoneme =>
      match fround (fmul (maxTime phoneme) (of_int sr)) with
      | None => None
      | Some end_phoneme => Some (start_phoneme, end_phoneme)
      end
  end.

(** [for phoneme, cur_energy in zip(phonemes_a, Energy_a)] *)
Fixpoint build_loop (start_frame end_frame sr : Z)
    (zipped : list (Interval * Tensor1 F)) (acc : Taken) : Py Taken :=
  match zipped with
  | [] => Value acc
  | (phoneme, cur_energy) :: rest =>
      match frames_of sr phoneme with
      | None => Error RoundError
      | Some (start_phoneme, end_phoneme) =>
          let next total_phoneme_length :=
            py_bind (take phoneme cur_energy total_phoneme_length acc)
              (build_loop start_frame end_frame sr rest) in
          if start_phoneme >=? end_frame then Value acc          (* break *)
          else if end_phoneme <=? start_frame then
            build_loop start_frame end_frame sr rest acc         (* continue *)
          else if start_phoneme >=? start_frame then
            if end_phoneme <=? end_frame
            then next (end_phoneme - start_phoneme)
            else next (end_frame - start_phoneme)
          else if start_phoneme <=? start_frame then
            if end_phoneme >=? end_frame
            then next (end_frame - start_frame)
            else next (end_phoneme - start_frame)
          else Error (AssertionFailed MissedCase)
      end
  end.

Definition Build_excisting_phonemes_sec_approach (start_frame end_frame : Z)
    (phonemes_a : list Interval) (Energy_a : Tensor2 F) (sr : Z)
  : Py (Tensor2 F * list Interval * Tensor2 F) :=
  py_bind (build_loop start_frame end_frame sr (combine phonemes_a Energy_a)
             nothing_taken) (fun acc =>
  let n := Z.of_nat (length (conditioned_phonemes_signal acc)) in
  let m := Z.of_nat (length (conditioned_energy_signal acc)) in
  if negb (n =? end_frame - start_frame)
  then Error (AssertionFailed (SignalLength n (end_frame - start_frame)))
  else if negb (n =? m) then Error (AssertionFailed (EnergyLength n m))
  else if negb (0 <? Z.of_nat (length (list_taken_phonemes acc)))
  then Error (AssertionFailed NoPhonemes)
  else Value ([conditioned_phonemes_signal acc],
              list_info_taken_phonemes acc,
              [conditioned_energy_signal acc])).

(** The interval has samples in the window [[start_frame, end_frame)]. *)
Definition overlaps (sr start_frame end_frame : Z) (phoneme : Interval)
  : bool :=
  match frames_of sr phoneme with
  | Some (start_phoneme, end_phoneme) =>
      (start_phoneme <? end_frame) && (start_frame <? end_phoneme)
  | None => false
  end.

(** The intervals follow one another without a gap, from sample [from] to
    sample [to], as the intervals of a TextGrid tier do. *)
Fixpoint tiles (sr from : Z) (phonemes : list Interval) (to : Z) : Prop :=
  match phonemes with
  | [] => from = to
  | phoneme :: rest =>
      exists end_phoneme,
        frames_of sr phoneme = Some (from, end_phoneme)
        /\ from <= end_phoneme
        /\ tiles sr end_phoneme rest to
  end.

(** The mark is a key of [phoneme_to_index_dict]. *)
Definition known (phoneme : Interval) : Prop :=
  exists index, dict_get phoneme_to_index_dict (mark phoneme) = Value index.

End Utils.

Arguments Interval F : clear implicits.
Arguments Taken F : clear implicits.
(* ================================================================== *)
(** * Further concrete runs *)

Module Runs.
Import Demo.

(** Two training batches of one example each. *)
Definition two_batches : Loader binary32 unit := [batch1 1 2 0; batch1 3 4 0].

(** A master learner with a budget of three steps, no checkpoint to
    restore. *)
Definition budget3_start : St binary32 nat unit nat :=
  snd (init (ext := ext) 0%nat two_batches None None true
         (params_of (-1) fzero (Some 3)) world0).

(** The same on a replica that is not the master, with a validation
    set. *)
Definition replica_start : St binary32 nat unit nat :=
  snd (init (ext := ext) 0%nat two_batches (Some [batch1 1 2 0]) None false
         (params_of (-1) fzero (Some 3)) world_distributed).

(** A learner with a test set. *)
Definition tested_start : St binary32 nat unit nat :=
  snd (init (ext := ext) 0%nat two_batches None (Some [batch1 1 2 0]) true
         (params_of (-1) fzero (Some 3)) world0).

(** Three rows of four samples. *)
Definition three_rows : Tensor2 Q :=
  [[1; 1; 1; 1]; [1; 1; 1; 1]; [1; 1; 1; 1]]%Q.

(** [noise_q] with other values where overlap [3; 0] and margin 1 mask. *)
Definition noise_q' : Tensor2 Q := [[5; 7; 1; 1]; [1; 1; 1; 1]]%Q.

(** A tier of four intervals, as a TextGrid gives them (times in
    seconds), and one energy number for each. *)
Definition tier : list (Interval Q) :=
  [mkInterval 0 (1 # 8) "sil"; mkInterval (1 # 8) (1 # 2) "AA0";
   mkInterval (1 # 2) (3 # 4) "B"; mkInterval (3 # 4) 1 "sil"]%Q.

Definition energies : Tensor2 Q := [[1]; [2]; [3]; [4]]%Q.

(** The same tier with a mark that the dictionary does not hold. *)
Definition tier_unknown : list (Interval Q) :=
  [mkInterval 0 (1 # 8) "sil"; mkInterval (1 # 8) (1 # 2) "QQ"]%Q.

(** Energies that are vectors of two elements. *)
Definition energy_rows : Tensor2 Q := [[1; 1]; [2; 2]; [3; 3]; [4; 4]]%Q.

(** One channel of five samples. *)
Definition five_samples : Tensor2 Q := [[1; 2; 3; 4; 5]]%Q.

(** A generator that always draws the upper bound. *)
Definition draw_upper (a b : Z) : Z := b.

End Runs.

(* ================================================================== *)
(** * Proof tools *)

(** Unfolds the monad combinators and the state accessors. *)
Ltac mrun :=
  cbv beta iota zeta delta
    [bind ret raise lift get_self get_world modify_self modify_world emit
     logger_info print print_int draw_randint draw_randn_like fst snd].

Lemma SFcompare_refl_not_lt (x : spec_float) : SFltb x x = false.
Proof.
  unfold SFltb, SFcompare.
  destruct x as [[|]|[|]| |[|] m e]; try reflexivity;
    rewrite Z.compare_refl, Pos.compare_refl; reflexivity.
Qed.

#[export] Instance NumLaws_binary32 : NumLaws binary32.
Proof. constructor. exact SFcompare_refl_not_lt. Qed.

#[export] Instance NumLaws_Q : NumLaws Q.
Proof.
  constructor. intros x. simpl.
  replace (Qle_bool x x) with true; [reflexivity|].
  symmetry. apply Qle_bool_iff. apply Qle_refl.
Qed.

(* ================================================================== *)
(** * Facts about the overlap-masked loss *)

Section LossFacts.
Context {F : Type} {num : Num F}.

Lemma map2_length {A B C} (f : A -> B -> C) (l : list A) (m : list B) :
  length l = length m -> length (map2 f l m) = length l.
Proof.
  revert m; induction l as [|a l IH]; intros [|b m] E; simpl in *;
    try discriminate; auto.
Qed.

Lemma zero_prefix_length (k : nat) (row : Tensor1 F) :
  length (zero_prefix k row) = length row.
Proof.
  unfold zero_prefix.
  rewrite length_app, repeat_length, length_skipn. lia.
Qed.

Lemma zero_prefix_0 (row : Tensor1 F) : zero_prefix 0 row = row.
Proof. reflexivity. Qed.

Lemma zero_prefix_S (k : nat) (x : F) (row : Tensor1 F) :
  zero_prefix (S k) (x :: row) = fzero :: zero_prefix k row.
Proof. reflexivity. Qed.

Lemma update_row_middle (f : Tensor1 F -> Tensor1 F) (pre : Tensor2 F)
    (r : Tensor1 F) (post : Tensor2 F) :
  update_row (length pre) f (pre ++ r :: post) = Some (pre ++ f r :: post).
Proof.
  induction pre as [|p pre IH]; simpl; [reflexivity|].
  now rewrite IH.
Qed.

Lemma update_row_none (f : Tensor1 F -> Tensor1 F) (loss : Tensor2 F)
    (row : nat) :
  (length loss <= row)%nat -> update_row row f loss = None.
Proof.
  revert row; induction loss as [|r loss IH]; intros [|row] L; simpl in *;
    try reflexivity; try lia.
  rewrite IH by lia. reflexivity.
Qed.

(** The loop zeroes row [i] up to [max(0, overlap[i] - margin)]. *)
Lemma mask_rows_zip (m : Z) (ov : list Z) :
  forall (pre rows : Tensor2 F),
    length rows = length ov ->
    mask_rows m (length pre) ov (pre ++ rows)
    = Ok (pre ++ map2 (fun row k => zero_prefix (Z.to_nat (Z.max 0 (k - m))) row)
                      rows ov).
Proof.
  induction ov as [|k ov IH]; intros pre rows E.
  - destruct rows; [|discriminate]. reflexivity.
  - destruct rows as [|r rows]; [discriminate|].
    simpl in E. injection E as E.
    cbn [mask_rows map2].
    rewrite update_row_middle.
    replace (pre ++ zero_prefix (Z.to_nat (Z.max 0 (k - m))) r :: rows)
      with ((pre ++ [zero_prefix (Z.to_nat (Z.max 0 (k - m))) r]) ++ rows)
      by (rewrite <- app_assoc; reflexivity).
    replace (S (length pre))
      with (length (pre ++ [zero_prefix (Z.to_nat (Z.max 0 (k - m))) r]))
      by (rewrite length_app; simpl; lia).
    rewrite IH by assumption.
    rewrite <- app_assoc. reflexivity.
Qed.

(** More overlaps than rows: the loop runs off the tensor. *)
Lemma mask_rows_index_error (m : Z) (ov : list Z) :
  forall (row : nat) (loss : Tensor2 F),
    (length loss < row + length ov)%nat ->
    (row <= length loss)%nat ->
    mask_rows m row ov loss = Raise IndexError.
Proof.
  induction ov as [|k ov IH]; intros row loss L1 L2; simpl in *; [lia|].
  destruct (Nat.eq_dec row (length loss)) as [->|Ne].
  - rewrite update_row_none by lia. reflexivity.
  - destruct (update_row row _ loss) as [loss'|] eqn:U; [|reflexivity].
    assert (length loss' = length loss) as E.
    { clear - U. revert row loss' U.
      induction loss as [|r loss IHl]; intros [|row] loss' U; simpl in U;
        try discriminate.
      - injection U as <-. reflexivity.
      - destruct (update_row row _ loss) eqn:U'; [|discriminate].
        injection U as <-. simpl. f_equal. eapply IHl; eassumption. }
    apply IH; lia.
Qed.

Lemma masked_row_from_unmasked (mask_until : Z) (n p : Tensor1 F) :
  forall j, mask_until <= Z.of_nat j ->
    masked_row_from j mask_until n p = map2 (fun x y => fabs (fsub x y)) n p.
Proof.
  revert p; induction n as [|x n IH]; intros [|y p] j L; simpl; auto.
  destruct (Z.ltb_spec (Z.of_nat j) mask_until); [lia|].
  rewrite IH by lia. reflexivity.
Qed.

Lemma masked_row_from_zero_prefix (mask_until : Z) (n p : Tensor1 F) :
  forall j,
    masked_row_from j mask_until n p
    = zero_prefix (Z.to_nat (mask_until - Z.of_nat j))
        (map2 (fun x y => fabs (fsub x y)) n p).
Proof.
  revert p; induction n as [|x n IH]; intros [|y p] j; simpl;
    try (unfold zero_prefix; simpl; rewrite Nat.min_0_r, skipn_nil; reflexivity).
  destruct (Z.ltb_spec (Z.of_nat j) mask_until) as [L|L].
  - replace (Z.to_nat (mask_until - Z.of_nat j))
      with (S (Z.to_nat (mask_until - Z.of_nat (S j)))) by lia.
    rewrite zero_prefix_S, IH. reflexivity.
  - replace (Z.to_nat (mask_until - Z.of_nat j)) with 0%nat by lia.
    rewrite zero_prefix_0.
    rewrite masked_row_from_unmasked by lia. reflexivity.
Qed.

Lemma div_row_div_row (row : Tensor1 F) (d b : Z) :
  div_row (div_row row d) b
  = map (fun e => fdiv (fdiv e (of_int d)) (of_int b)) row.
Proof. unfold div_row. rewrite map_map. reflexivity. Qed.

(** Masking, the two divisions: row by row this is what the specification
    describes. *)
Lemma masked_divided_rows (m b T : Z) :
  forall (noise predicted : Tensor2 F) (ov : list Z),
    map (fun row => div_row row b)
      (map2 div_row
         (map2 (fun row k => zero_prefix (Z.to_nat (Z.max 0 (k - m))) row)
               (l1_loss_none noise predicted) ov)
         (non_overlap T ov m))
    = spec_terms m b T noise predicted ov.
Proof.
  unfold l1_loss_none, non_overlap.
  induction noise as [|n noise IH]; intros [|p predicted] [|k ov]; simpl;
    try reflexivity.
  rewrite IH. f_equal.
  unfold spec_row_terms.
  rewrite div_row_div_row, masked_row_from_zero_prefix.
  simpl. rewrite Z.sub_0_r. reflexivity.
Qed.

Lemma shape1_masked (m : Z) (T : nat) (rows : Tensor2 F) (ov : list Z) :
  Forall (fun r => length r = T) rows ->
  length rows = length ov -> rows <> [] ->
  shape1 (map2 (fun row k => zero_prefix (Z.to_nat (Z.max 0 (k - m))) row)
               rows ov) = Z.of_nat T.
Proof.
  intros A E NE.
  destruct rows as [|r rows]; [congruence|].
  destruct ov as [|k ov]; [discriminate|].
  unfold shape1; simpl. rewrite zero_prefix_length.
  inversion A; subst. reflexivity.
Qed.

Lemma l1_loss_none_shape (T : nat) :
  forall (noise predicted : Tensor2 F),
    Forall (fun r => length r = T) noise ->
    Forall (fun r => length r = T) predicted ->
    length predicted = length noise ->
    Forall (fun r => length r = T) (l1_loss_none noise predicted)
    /\ length (l1_loss_none noise predicted) = length noise.
Proof.
  induction noise as [|n noise IH]; intros [|p predicted] A B E;
    simpl in *; try discriminate; auto.
  inversion A; inversion B; subst.
  destruct (IH predicted) as [I1 I2]; auto.
  split; [constructor; auto | f_equal; exact I2].
  rewrite map2_length; congruence.
Qed.

Lemma non_overlap_length (T : Z) (ov : list Z) (m : Z) :
  length (non_overlap T ov m) = length ov.
Proof. apply length_map. Qed.

(** The code computes the loss the specification describes, with
    [params.batch_size_train] as the batch size. *)
Lemma get_loss_with_overlap_mask_spec (P : Params F) (T : nat)
    (noise predicted : Tensor2 F) (ov : list Z) :
  0 <= mask_loss_using_overlap P ->
  Forall (fun r => length r = T) noise ->
  Forall (fun r => length r = T) predicted ->
  length predicted = length noise ->
  length ov = length noise ->
  get_loss_with_overlap_mask P noise predicted ov
  = Ok (spec_masked_loss (mask_loss_using_overlap P) (batch_size_train P)
          (Z.of_nat T) noise predicted ov).
Proof.
  intros M A B E1 E2.
  unfold get_loss_with_overlap_mask.
  destruct (Z.ltb_spec (mask_loss_using_overlap P) 0) as [L|_]; [lia|].
  destruct (l1_loss_none_shape T noise predicted A B E1) as [S1 S2].
  pose proof (mask_rows_zip (mask_loss_using_overlap P) ov []
                (l1_loss_none noise predicted)) as MR.
  assert (length (l1_loss_none noise predicted) = length ov) as S3
    by exact (eq_trans S2 (eq_sym E2)).
  simpl in MR. rewrite MR by exact S3. clear MR.
  cbn [res_bind].
  unfold div_rows.
  rewrite non_overlap_length.
  rewrite map2_length by exact S3.
  replace (length ov =? length (l1_loss_none noise predicted))%nat with true
    by (symmetry; apply Nat.eqb_eq; symmetry; exact S3).
  cbn [res_bind]. unfold spec_masked_loss. do 2 f_equal.
  destruct noise as [|n noise].
  - destruct ov; [|discriminate]. destruct predicted; reflexivity.
  - rewrite (shape1_masked _ T); try assumption.
    + apply masked_divided_rows.
    + destruct predicted; [discriminate|]. simpl. discriminate.
Qed.

End LossFacts.

(* ================================================================== *)
(** * Facts about the forward-noising step *)

Section NoiseFacts.
Context {F W Cond Rng : Type} {num : Num F} {sq : Sqrt F}
  {ext : External F W Cond Rng}.

Lemma cumprod_from_length (l : list F) :
  forall acc, length (cumprod_from acc l) = length l.
Proof. induction l as [|x l IH]; intros acc; simpl; auto. Qed.

Lemma init_noise_level_length (beta : list F) :
  length (init_noise_level beta) = length beta.
Proof.
  unfold init_noise_level, cumprod.
  destruct beta as [|b beta]; simpl; [reflexivity|].
  now rewrite cumprod_from_length, length_map.
Qed.

Lemma gather_in_range (level : Tensor1 F) (t : list nat) :
  Forall (fun i => (i < length level)%nat) t ->
  gather level t = Ok (map (fun i => nth i level fzero) t).
Proof.
  induction 1 as [|i t L _ IH]; simpl; [reflexivity|].
  destruct (nth_error level i) as [r|] eqn:E.
  - rewrite IH. simpl. f_equal. f_equal.
    symmetry. apply nth_error_nth. exact E.
  - apply nth_error_None in E. lia.
Qed.

Lemma gather_out_of_range (level : Tensor1 F) (t : list nat) :
  Exists (fun i => (length level <= i)%nat) t ->
  gather level t = Raise IndexError.
Proof.
  induction 1 as [i t L|i t _ IH]; simpl.
  - apply nth_error_None in L. now rewrite L.
  - destruct (nth_error level i); [|reflexivity]. now rewrite IH.
Qed.

Lemma noisy_audio_spec (level : Tensor1 F) (t : list nat) :
  forall (audio noise : Tensor2 F),
    map2 (map2 fadd)
      (scale_rows (map fsqrt (map (fun i => nth i level fzero) t)) audio)
      (scale_rows (map (fun r => fsqrt (fsub fone r))
                       (map (fun i => nth i level fzero) t)) noise)
    = spec_forward_noise level t audio noise.
Proof.
  unfold scale_rows.
  induction t as [|i t IH]; intros [|a audio] [|n noise]; simpl;
    try reflexivity.
  rewrite IH. f_equal.
  clear. revert n. induction a as [|x a IHa]; intros [|e n]; simpl;
    try reflexivity.
  now rewrite IHa.
Qed.

Lemma spec_forward_noise_shape (level : Tensor1 F) (T : nat) (t : list nat) :
  forall (audio noise : Tensor2 F),
    length t = length audio -> length noise = length audio ->
    Forall (fun r => length r = T) audio ->
    Forall (fun r => length r = T) noise ->
    length (spec_forward_noise level t audio noise) = length audio
    /\ Forall (fun r => length r = T) (spec_forward_noise level t audio noise).
Proof.
  induction t as [|i t IH]; intros [|a audio] [|n noise] E1 E2 A B;
    simpl in *; try discriminate; auto.
  inversion A; inversion B; subst.
  destruct (IH audio noise) as [I1 I2]; auto.
  split; [f_equal; exact I1|].
  constructor; [|exact I2].
  rewrite map2_length; congruence.
Qed.

(** The noising block returns the draws and the noisy audio of the
    specification, and only advances the generator. *)
Lemma train_step_noisy_audio_ok (audio : Tensor2 F) (st : St F W Cond Rng)
    (t : list nat) (g1 : Rng) (noise : Tensor2 F) (g2 : Rng) :
  randint (rng (snd st)) (length (noise_schedule (params (fst st))))
          (length audio) = (t, g1) ->
  Forall (fun i => (i < length (noise_level (fst st)))%nat) t ->
  randn_like g1 audio = (noise, g2) ->
  train_step_noisy_audio audio st
  = (Ok (t, noise, spec_forward_noise (noise_level (fst st)) t audio noise),
     (fst st, set_rng g2 (snd st))).
Proof.
  intros R1 Rg R2.
  destruct st as [self world]; simpl in *.
  unfold train_step_noisy_audio. mrun.
  rewrite R1. mrun.
  rewrite (gather_in_range _ _ Rg). mrun.
  cbn [rng set_rng]. rewrite R2. mrun.
  rewrite noisy_audio_spec.
  reflexivity.
Qed.

Lemma valid_loss_noisy_audio_same (audio : Tensor2 F) (st : St F W Cond Rng) :
  valid_loss_noisy_audio audio st = train_step_noisy_audio audio st.
Proof. reflexivity. Qed.

(** C2: with the draws of the step made explicit (timesteps [t], one per
    example and each in [0, S), and noise of the audio's shape), the noising
    block of [train_step] returns
    [noisy = sqrt(retention[t]) * audio + sqrt(1 - retention[t]) * noise],
    of the shape of the audio, in one pass over the batch, and the block of
    [valid_loss] is the same computation. *)
Theorem forward_noising_step (audio : Tensor2 F) (T : nat) (st : St F W Cond Rng)
    (t : list nat) (g1 : Rng) (noise : Tensor2 F) (g2 : Rng) :
  let S := length (noise_schedule (params (fst st))) in
  noise_level (fst st) = init_noise_level (noise_schedule (params (fst st))) ->
  Forall (fun r => length r = T) audio ->
  randint (rng (snd st)) S (length audio) = (t, g1) ->
  length t = length audio ->
  Forall (fun i => (i < S)%nat) t ->
  randn_like g1 audio = (noise, g2) ->
  length noise = length audio ->
  Forall (fun r => length r = T) noise ->
  let noisy := spec_forward_noise (noise_level (fst st)) t audio noise in
  train_step_noisy_audio audio st
    = (Ok (t, noise, noisy), (fst st, set_rng g2 (snd st)))
  /\ valid_loss_noisy_audio audio st = train_step_noisy_audio audio st
  /\ length noisy = length audio
  /\ Forall (fun r => length r = T) noisy.
Proof.
  intros S NL A R1 Lt Rg R2 Ln B noisy.
  assert (Forall (fun i => (i < length (noise_level (fst st)))%nat) t) as Rg'.
  { rewrite NL, init_noise_level_length. exact Rg. }
  split; [|split].
  - apply train_step_noisy_audio_ok with (g1 := g1); assumption.
  - apply valid_loss_noisy_audio_same.
  - apply spec_forward_noise_shape; assumption.
Qed.

End NoiseFacts.

(* ================================================================== *)
(** * Facts about the noise schedule, in exact arithmetic *)

Section ScheduleFacts.
Local Open Scope Q_scope.

Lemma cumprod_from_product (l : list Q) :
  forall (acc : Q) (t : nat),
    (t < length l)%nat ->
    nth t (cumprod_from acc l) 0 == acc * qprod (firstn (S t) l).
Proof.
  induction l as [|x l IH]; intros acc t L; simpl in L; [lia|].
  destruct t as [|t].
  - simpl. destruct l; simpl; ring.
  - cbn [cumprod_from nth]. rewrite IH by lia.
    change (firstn (S (S t)) (x :: l)) with (x :: firstn (S t) l).
    cbn [qprod fmul Num_Q]. ring.
Qed.

Lemma cumprod_from_bounds (l : list Q) :
  forall acc : Q,
    0 < acc -> Forall unit_open l ->
    Forall (fun y => 0 < y /\ y <= acc) (cumprod_from acc l).
Proof.
  induction l as [|x l IH]; intros acc Pa A; simpl; [constructor|].
  inversion A as [|? ? [X0 X1] A']; subst.
  assert (0 < acc * x) by nra.
  assert (acc * x <= acc) by nra.
  constructor; [split; assumption|].
  eapply Forall_impl; [|apply IH; assumption].
  simpl. intros y [Y0 Y1]. split; [assumption|lra].
Qed.

Lemma cumprod_from_non_increasing (l : list Q) :
  forall (acc : Q) (t : nat),
    0 < acc -> Forall unit_open l ->
    (S t < length l)%nat ->
    nth (S t) (cumprod_from acc l) 0 <= nth t (cumprod_from acc l) 0.
Proof.
  induction l as [|x l IH]; intros acc t Pa A L; simpl in L; [lia|].
  inversion A as [|? ? [X0 X1] A']; subst.
  assert (0 < acc * x) as Pa' by nra.
  cbn [cumprod_from].
  destruct t as [|t].
  - cbn [nth].
    pose proof (cumprod_from_bounds l (acc * x) Pa' A') as B.
    destruct l as [|y l]; [simpl in L; lia|].
    simpl in B. inversion B as [|? ? [_ Y] _]; subst. exact Y.
  - change (nth (S (S t)) (fmul acc x :: cumprod_from (fmul acc x) l) 0)
      with (nth (S t) (cumprod_from (fmul acc x) l) 0).
    change (nth (S t) (fmul acc x :: cumprod_from (fmul acc x) l) 0)
      with (nth t (cumprod_from (fmul acc x) l) 0).
    apply IH; [exact Pa'|exact A'|lia].
Qed.

Lemma one_minus_unit_open (beta : list Q) :
  Forall unit_open beta -> Forall unit_open (map (fun b => fsub fone b) beta).
Proof.
  induction 1 as [|b beta [B0 B1] _ IH]; simpl; constructor; auto.
  unfold unit_open. split; lra.
Qed.

(** C3: for a beta sequence of length S > 0 with every beta in (0,1), the
    curve [np.cumprod(1 - beta)] has length S, its entry [t] is the product
    of [1 - beta[i]] over [i <= t], it is non-increasing, and every value
    lies in (0,1].  Arithmetic is exact (rationals). *)
Theorem retention_curve (beta : list Q) :
  beta <> [] ->
  Forall unit_open beta ->
  let retention := init_noise_level beta in
  length retention = length beta
  /\ (forall t, (t < length beta)%nat ->
         nth t retention 0 == spec_retention beta t)
  /\ (forall t, (S t < length beta)%nat ->
         nth (S t) retention 0 <= nth t retention 0)
  /\ Forall unit_half_open retention.
Proof.
  intros NE A retention.
  pose proof (one_minus_unit_open beta A) as A1.
  subst retention. unfold init_noise_level, spec_retention.
  destruct beta as [|b beta]; [congruence|]. clear NE.
  cbn [map cumprod] in *.
  inversion A1 as [|? ? [X0 X1] A1']; subst.
  split; [|split; [|split]].
  - simpl. now rewrite cumprod_from_length, length_map.
  - intros [|t] L.
    + simpl. ring.
    + cbn [nth]. rewrite cumprod_from_product
        by (rewrite length_map; simpl in L; lia).
      rewrite firstn_map.
      change (firstn (S (S t)) (b :: beta)) with (b :: firstn (S t) beta).
      reflexivity.
  - intros [|t] L.
    + cbn [nth].
      pose proof (cumprod_from_bounds _ _ X0 A1') as B.
      destruct beta as [|y beta]; [simpl in L; lia|].
      simpl in B. inversion B as [|? ? [_ Y] _]; subst. exact Y.
    + change (nth (S (S t)) (fsub fone b :: ?l) 0) with (nth (S t) l 0).
      cbn [nth].
      apply cumprod_from_non_increasing; [exact X0|exact A1'|].
      rewrite length_map. simpl in L. lia.
  - constructor; [split; cbn [fsub fone Num_Q]; lra|].
    eapply Forall_impl; [|apply cumprod_from_bounds; eassumption].
    cbn [fsub fone Num_Q]. intros y [Y0 Y1]. split; [assumption|lra].
Qed.

End ScheduleFacts.

(* ================================================================== *)
(** * Facts about the checkpoint pools *)

Section PoolFacts.
Context {SD : Type}.

Lemma name_eqb_refl (n : Name) : name_eqb n n = true.
Proof. destruct n; simpl; [apply Z.eqb_refl|reflexivity]. Qed.








End PoolFacts.


(* ================================================================== *)
(** * Facts about one step *)

Section StepFacts.
Context {F W Cond Rng : Type} {num : Num F} {sq : Sqrt F}
  {ext : External F W Cond Rng}.

Lemma apply_log_mel_spec_some (f : Tensor2 F -> Tensor1 F) (x : Tensor2 F)
    (self : Learner F W Cond) (world : World F W Rng) :
  log_mel_spec self = Some f ->
  apply_log_mel_spec x (self, world) = (Ok (f x), (self, add_event LogMel world)).
Proof.
  intros E. unfold apply_log_mel_spec. mrun. rewrite E. reflexivity.
Qed.

(** [train_step] when the coefficient is not positive. *)
Lemma train_step_plain (audio ac : Tensor2 F) (ph en : Cond)
    (overlap : option (list Z)) (self : Learner F W Cond) (world : World F W Rng)
    (t : list nat) (g1 : Rng) (noise : Tensor2 F) (g2 : Rng)
    (ld : F) (w : W) (g : F) :
  let noisy := spec_forward_noise (noise_level self) t audio noise in
  let predicted := model (weights self) noisy ac t ph en in
  randint (rng world) (length (noise_schedule (params self))) (length audio)
    = (t, g1) ->
  Forall (fun i => (i < length (noise_level self))%nat) t ->
  randn_like g1 audio = (noise, g2) ->
  denoise_loss (params self) noise predicted overlap = Ok ld ->
  optimizer_step (weights self) noisy ac t ph en noise overlap = (w, g) ->
  fltb fzero (spec_loss_coeff (params self)) = false ->
  train_step audio ac ph en overlap (self, world)
  = (Ok (ld, ld, None),
     (set_grad_norm g (set_weights w self),
      add_event OptimizerStep (set_rng g2 world))).
Proof.
  intros noisy predicted R1 Rg R2 D O C.
  unfold train_step.
  unfold bind at 1.
  rewrite (train_step_noisy_audio_ok audio (self, world) t g1 noise g2 R1 Rg R2).
  mrun. fold noisy. fold predicted.
  unfold denoise_loss in D.
  destruct overlap as [ov|]; [rewrite D | injection D as <-];
    mrun; rewrite C; mrun; cbn [weights]; rewrite O; reflexivity.
Qed.

(** [train_step] when the coefficient is positive and the transform was
    constructed. *)
Lemma train_step_blend (audio ac : Tensor2 F) (ph en : Cond)
    (overlap : option (list Z)) (self : Learner F W Cond) (world : World F W Rng)
    (t : list nat) (g1 : Rng) (noise : Tensor2 F) (g2 : Rng)
    (ld : F) (w : W) (g : F) (f : Tensor2 F -> Tensor1 F) :
  let noisy := spec_forward_noise (noise_level self) t audio noise in
  let predicted := model (weights self) noisy ac t ph en in
  let ls := l1_loss_flat (f noise) (f predicted) in
  randint (rng world) (length (noise_schedule (params self))) (length audio)
    = (t, g1) ->
  Forall (fun i => (i < length (noise_level self))%nat) t ->
  randn_like g1 audio = (noise, g2) ->
  denoise_loss (params self) noise predicted overlap = Ok ld ->
  optimizer_step (weights self) noisy ac t ph en noise overlap = (w, g) ->
  fltb fzero (spec_loss_coeff (params self)) = true ->
  log_mel_spec self = Some f ->
  train_step audio ac ph en overlap (self, world)
  = (Ok (blend (spec_loss_coeff (params self)) ld ls, ld, Some ls),
     (set_grad_norm g (set_weights w self),
      add_event OptimizerStep
        (add_event LogMel (add_event LogMel (set_rng g2 world))))).
Proof.
  intros noisy predicted ls R1 Rg R2 D O C Lm.
  unfold train_step.
  unfold bind at 1.
  rewrite (train_step_noisy_audio_ok audio (self, world) t g1 noise g2 R1 Rg R2).
  mrun. fold noisy. fold predicted.
  unfold denoise_loss in D.
  destruct overlap as [ov|]; [rewrite D | injection D as <-];
    mrun; rewrite C; unfold apply_log_mel_spec; mrun; rewrite Lm; mrun;
    rewrite ?Lm; mrun;
    cbn [weights]; rewrite O; reflexivity.
Qed.

(** [valid_loss] when the coefficient is not positive. *)
Lemma valid_loss_plain (audio ac : Tensor2 F) (ph en : Cond)
    (overlap : option (list Z)) (self : Learner F W Cond) (world : World F W Rng)
    (t : list nat) (g1 : Rng) (noise : Tensor2 F) (g2 : Rng) (ld : F) :
  let noisy := spec_forward_noise (noise_level self) t audio noise in
  let predicted := model (weights self) noisy ac t ph en in
  randint (rng world) (length (noise_schedule (params self))) (length audio)
    = (t, g1) ->
  Forall (fun i => (i < length (noise_level self))%nat) t ->
  randn_like g1 audio = (noise, g2) ->
  denoise_loss (params self) noise predicted overlap = Ok ld ->
  fltb fzero (spec_loss_coeff (params self)) = false ->
  valid_loss audio ac ph en overlap (self, world)
  = (Ok (ld, ld, None), (self, set_rng g2 world)).
Proof.
  intros noisy predicted R1 Rg R2 D C.
  unfold valid_loss.
  unfold bind at 1.
  rewrite valid_loss_noisy_audio_same.
  rewrite (train_step_noisy_audio_ok audio (self, world) t g1 noise g2 R1 Rg R2).
  mrun. fold noisy. fold predicted.
  unfold denoise_loss in D.
  destruct overlap as [ov|]; [rewrite D | injection D as <-];
    mrun; rewrite C; reflexivity.
Qed.

(** [valid_loss] when the coefficient is positive and the transform was
    constructed. *)
Lemma valid_loss_blend (audio ac : Tensor2 F) (ph en : Cond)
    (overlap : option (list Z)) (self : Learner F W Cond) (world : World F W Rng)
    (t : list nat) (g1 : Rng) (noise : Tensor2 F) (g2 : Rng) (ld : F)
    (f : Tensor2 F -> Tensor1 F) :
  let noisy := spec_forward_noise (noise_level self) t audio noise in
  let predicted := model (weights self) noisy ac t ph en in
  let ls := l1_loss_flat (f noise) (f predicted) in
  randint (rng world) (length (noise_schedule (params self))) (length audio)
    = (t, g1) ->
  Forall (fun i => (i < length (noise_level self))%nat) t ->
  randn_like g1 audio = (noise, g2) ->
  denoise_loss (params self) noise predicted overlap = Ok ld ->
  fltb fzero (spec_loss_coeff (params self)) = true ->
  log_mel_spec self = Some f ->
  valid_loss audio ac ph en overlap (self, world)
  = (Ok (blend (spec_loss_coeff (params self)) ld ls, ld, Some ls),
     (self, add_event LogMel (add_event LogMel (set_rng g2 world)))).
Proof.
  intros noisy predicted ls R1 Rg R2 D C Lm.
  unfold valid_loss.
  unfold bind at 1.
  rewrite valid_loss_noisy_audio_same.
  rewrite (train_step_noisy_audio_ok audio (self, world) t g1 noise g2 R1 Rg R2).
  mrun. fold noisy. fold predicted.
  unfold denoise_loss in D.
  destruct overlap as [ov|]; [rewrite D | injection D as <-];
    mrun; rewrite C; unfold apply_log_mel_spec; mrun; rewrite Lm; mrun;
    rewrite ?Lm; mrun;
    reflexivity.
Qed.

Lemma new_learner_as_constructed (mw : W) (tr : Loader F Cond)
    (va te : option (Loader F Cond)) (m : bool) (P : Params F) :
  as_constructed (new_learner mw tr va te m P).
Proof. split; reflexivity. Qed.

(** Nothing that assigns to [self] touches what [as_constructed] reads. *)
Lemma as_constructed_setters (self : Learner F W Cond) (z : Z) (w : W) (g : F)
    (b : bool) :
  as_constructed self ->
  as_constructed (set_step z self) /\ as_constructed (set_weights w self)
  /\ as_constructed (set_grad_norm g self)
  /\ as_constructed (set_summary_writer b self).
Proof. intros [A B]. repeat split; assumption. Qed.

(** C9: with the coefficient [c] equal to 0, [__init__] constructs no
    log-mel transform, and both [train_step] and [valid_loss] return the
    denoise loss itself as total loss, with no spectral loss and without an
    application of the transform; with [c > 0] the total loss is
    [(1-c)*denoise_loss + c*spec_loss]. *)
Theorem aux_loss_coefficient {laws : NumLaws F}
    (audio ac : Tensor2 F) (ph en : Cond)
    (overlap : option (list Z)) (self : Learner F W Cond) (world : World F W Rng)
    (t : list nat) (g1 : Rng) (noise : Tensor2 F) (g2 : Rng)
    (ld : F) (w : W) (g : F) :
  let c := spec_loss_coeff (params self) in
  let noisy := spec_forward_noise (noise_level self) t audio noise in
  let predicted := model (weights self) noisy ac t ph en in
  let ls := l1_loss_flat (log_mel noise) (log_mel predicted) in
  as_constructed self ->
  randint (rng world) (length (noise_schedule (params self))) (length audio)
    = (t, g1) ->
  Forall (fun i => (i < length (noise_schedule (params self)))%nat) t ->
  randn_like g1 audio = (noise, g2) ->
  denoise_loss (params self) noise predicted overlap = Ok ld ->
  optimizer_step (weights self) noisy ac t ph en noise overlap = (w, g) ->
  (c = fzero ->
     log_mel_spec self = None
     /\ train_step audio ac ph en overlap (self, world)
        = (Ok (ld, ld, None),
           (set_grad_norm g (set_weights w self),
            add_event OptimizerStep (set_rng g2 world)))
     /\ valid_loss audio ac ph en overlap (self, world)
        = (Ok (ld, ld, None), (self, set_rng g2 world)))
  /\ (fltb fzero c = true ->
     train_step audio ac ph en overlap (self, world)
       = (Ok (blend c ld ls, ld, Some ls),
          (set_grad_norm g (set_weights w self),
           add_event OptimizerStep
             (add_event LogMel (add_event LogMel (set_rng g2 world)))))
     /\ valid_loss audio ac ph en overlap (self, world)
        = (Ok (blend c ld ls, ld, Some ls),
           (self, add_event LogMel (add_event LogMel (set_rng g2 world))))).
Proof.
  intros c noisy predicted ls [NL LM] R1 Rg R2 D O.
  assert (Forall (fun i => (i < length (noise_level self))%nat) t) as Rg'.
  { rewrite NL, init_noise_level_length. exact Rg. }
  split.
  - intros C0.
    assert (fltb fzero (spec_loss_coeff (params self)) = false) as C.
    { fold c. rewrite C0. apply fltb_irrefl. }
    rewrite C in LM.
    split; [exact LM|split].
    + eapply train_step_plain; eassumption.
    + eapply valid_loss_plain; eassumption.
  - intros C. fold c in LM. rewrite C in LM.
    split.
    + eapply train_step_blend; eassumption.
    + eapply valid_loss_blend; eassumption.
Qed.

(** C10: whatever the number of rows of the tensors passed in, the
    overlap-masked loss divides by [params.batch_size_train]; the
    validation loss, whose batches are sized by another parameter, gets its
    denoise loss from the same division. *)
Theorem masked_loss_divides_by_train_batch_size
    (audio ac : Tensor2 F) (ph en : Cond) (ov : list Z) (T : nat)
    (self : Learner F W Cond) (world : World F W Rng)
    (t : list nat) (g1 : Rng) (noise : Tensor2 F) (g2 : Rng) :
  let P := params self in
  let noisy := spec_forward_noise (noise_level self) t audio noise in
  let predicted := model (weights self) noisy ac t ph en in
  let ld := spec_masked_loss (mask_loss_using_overlap P) (batch_size_train P)
              (Z.of_nat T) noise predicted ov in
  as_constructed self ->
  0 <= mask_loss_using_overlap P ->
  randint (rng world) (length (noise_schedule P)) (length audio) = (t, g1) ->
  Forall (fun i => (i < length (noise_schedule P))%nat) t ->
  randn_like g1 audio = (noise, g2) ->
  Forall (fun r => length r = T) noise ->
  Forall (fun r => length r = T) predicted ->
  length predicted = length noise ->
  length ov = length noise ->
  get_loss_with_overlap_mask P noise predicted ov = Ok ld
  /\ exists loss loss_spec world',
       valid_loss audio ac ph en (Some ov) (self, world)
       = (Ok (loss, ld, loss_spec), (self, world')).
Proof.
  intros P noisy predicted ld [NL LM] Mg R1 Rg R2 A B E1 E2.
  assert (Forall (fun i => (i < length (noise_level self))%nat) t) as Rg'.
  { rewrite NL, init_noise_level_length. exact Rg. }
  assert (get_loss_with_overlap_mask P noise predicted ov = Ok ld) as D
    by (apply get_loss_with_overlap_mask_spec; assumption).
  split; [exact D|].
  destruct (fltb fzero (spec_loss_coeff (params self))) eqn:C.
  - do 3 eexists. eapply valid_loss_blend; eassumption.
  - do 3 eexists. eapply valid_loss_plain; eassumption.
Qed.

End StepFacts.

(* ================================================================== *)
(** * What leaves the step counter alone *)

Section KeepsStep.
Context {F W Cond Rng : Type} {num : Num F} {sq : Sqrt F}
  {ext : External F W Cond Rng}.

Lemma keeps_step_ret {A} (a : A) :
  keeps_step (ret a : M F W Cond Rng A).
Proof. intros st. reflexivity. Qed.

Lemma keeps_step_raise {A} (e : Exn) :
  keeps_step (raise e : M F W Cond Rng A).
Proof. intros st. reflexivity. Qed.

Lemma keeps_step_lift {A} (r : Res A) :
  keeps_step (lift r : M F W Cond Rng A).
Proof. intros st. reflexivity. Qed.

Lemma keeps_step_get_self :
  keeps_step (get_self : M F W Cond Rng (Learner F W Cond)).
Proof. intros st. reflexivity. Qed.

Lemma keeps_step_get_world :
  keeps_step (get_world : M F W Cond Rng (World F W Rng)).
Proof. intros st. reflexivity. Qed.

Lemma keeps_step_modify_world (f : World F W Rng -> World F W Rng) :
  keeps_step (modify_world f : M F W Cond Rng unit).
Proof. intros st. reflexivity. Qed.

Lemma keeps_step_modify_self (f : Learner F W Cond -> Learner F W Cond) :
  (forall l, step (f l) = step l) ->
  keeps_step (modify_self f : M F W Cond Rng unit).
Proof. intros E st. simpl. apply E. Qed.

Lemma keeps_step_bind {A B} (m : M F W Cond Rng A) (k : A -> M F W Cond Rng B) :
  keeps_step m -> (forall a, keeps_step (k a)) -> keeps_step (bind m k).
Proof.
  intros Hm Hk st. unfold bind.
  specialize (Hm st).
  destruct (m st) as [[a|e] st1]; simpl in *.
  - rewrite (Hk a st1). exact Hm.
  - exact Hm.
Qed.

End KeepsStep.

(** Walks through a computation built from the monad's combinators. *)
Ltac keeps :=
  repeat first
    [ solve [auto]
    | apply keeps_step_ret
    | apply keeps_step_raise
    | apply keeps_step_lift
    | apply keeps_step_get_self
    | apply keeps_step_get_world
    | apply keeps_step_modify_world
    | apply keeps_step_modify_self; intros; reflexivity
    | apply keeps_step_bind; [|intros ?]
    | match goal with
      | |- keeps_step (match ?x with _ => _ end) => destruct x
      end
    | progress cbv beta
    | progress unfold emit, logger_info, print, print_int, draw_randint,
        draw_randn_like ].

Section EpochFacts.
Context {F W Cond Rng : Type} {num : Num F} {sq : Sqrt F}
  {ext : External F W Cond Rng}.

Local Abbreviation keeps_step_of m := (keeps_step (m : M F W Cond Rng _)).

Lemma apply_log_mel_spec_keeps_step (x : Tensor2 F) :
  keeps_step_of (apply_log_mel_spec x).
Proof. unfold apply_log_mel_spec. keeps. Qed.

Lemma train_step_noisy_audio_keeps_step (audio : Tensor2 F) :
  keeps_step_of (train_step_noisy_audio audio).
Proof. unfold train_step_noisy_audio. keeps. Qed.

Lemma train_step_keeps_step (audio ac : Tensor2 F) (ph en : Cond)
    (ov : option (list Z)) :
  keeps_step_of (train_step audio ac ph en ov).
Proof.
  unfold train_step.
  pose proof apply_log_mel_spec_keeps_step.
  pose proof train_step_noisy_audio_keeps_step.
  keeps.
Qed.

Lemma valid_loss_keeps_step (audio ac : Tensor2 F) (ph en : Cond)
    (ov : option (list Z)) :
  keeps_step_of (valid_loss audio ac ph en ov).
Proof.
  unfold valid_loss.
  pose proof apply_log_mel_spec_keeps_step.
  pose proof train_step_noisy_audio_keeps_step.
  unfold valid_loss_noisy_audio.
  keeps.
Qed.

Lemma save_in_keeps_step (folder : Folder) : keeps_step_of (save_in folder).
Proof. unfold save_in. keeps. Qed.

Lemma add_scalars_keeps_step (d : list (string * F)) :
  keeps_step_of (add_scalars d).
Proof. induction d as [|[k v] d IH]; simpl; keeps. Qed.

Lemma log_dict_keeps_step (d : list (string * F)) : keeps_step_of (log_dict d).
Proof. unfold log_dict. pose proof add_scalars_keeps_step. keeps. Qed.

Lemma eval_epoch_loop_keeps_step (dataset : Loader F Cond) :
  forall acc n, keeps_step_of (eval_epoch_loop dataset acc n).
Proof.
  induction dataset as [|data rest IH]; intros acc n; simpl.
  - keeps.
  - pose proof valid_loss_keeps_step. keeps.
Qed.

Lemma eval_epoch_keeps_step (dataset : Loader F Cond) :
  keeps_step_of (eval_epoch dataset).
Proof. unfold eval_epoch. pose proof eval_epoch_loop_keeps_step. keeps. Qed.

Lemma train_validation_keeps_step (epoch : Z) (m : F) :
  keeps_step_of (train_validation epoch m).
Proof.
  unfold train_validation, save_to_min_checkpoint.
  pose proof eval_epoch_keeps_step. pose proof log_dict_keeps_step.
  pose proof save_in_keeps_step.
  keeps.
Qed.

Lemma train_checkpoint_keeps_step (epoch : Z) (loss m : F) :
  keeps_step_of (train_checkpoint epoch loss m).
Proof.
  unfold train_checkpoint, save_to_min_checkpoint, save_to_checkpoint.
  pose proof save_in_keeps_step.
  keeps.
Qed.

End EpochFacts.

(* ================================================================== *)
(** * Facts about the epoch loop *)

Section LoopFacts.
Context {F W Cond Rng : Type} {num : Num F} {sq : Sqrt F}
  {ext : External F W Cond Rng}.

Lemma bind_ok_inv {A B} (m : M F W Cond Rng A) (k : A -> M F W Cond Rng B)
    (st st' : St F W Cond Rng) (b : B) :
  bind m k st = (Ok b, st') ->
  exists a st1, m st = (Ok a, st1) /\ k a st1 = (Ok b, st').
Proof.
  unfold bind. destruct (m st) as [[a|e] st1]; intros E.
  - exists a, st1. split; [reflexivity|exact E].
  - discriminate.
Qed.

(** One turn of the training loop. *)
Lemma train_epoch_loop_cons (data : Batch F Cond) (rest : Loader F Cond)
    (acc : F * F * F) (st : St F W Cond Rng) :
  train_epoch_loop (data :: rest) acc st
  = match train_step (clean data) (conditioned_audio data)
            (conditioned_phonemes data) (conditioned_energy data)
            (batch_overlap (fst st) data) st with
    | (Ok (loss, loss_denoise, loss_spec), st2) =>
        if fisnan loss then (Raise (NaNLoss (step (fst st2))), st2)
        else train_epoch_loop rest
               (add_losses acc loss loss_denoise loss_spec)
               (set_step (step (fst st2) + 1) (fst st2), snd st2)
    | (Raise e, st2) => (Raise e, st2)
    end.
Proof.
  cbn [train_epoch_loop]. mrun.
  destruct (train_step _ _ _ _ _ st) as [[[[loss ld] ls]|e] [l w]];
    [|reflexivity].
  destruct (fisnan loss); reflexivity.
Qed.

Lemma train_epoch_loop_app (pre post : Loader F Cond) :
  forall (acc : F * F * F) (st : St F W Cond Rng),
    train_epoch_loop (pre ++ post) acc st
    = match train_epoch_loop pre acc st with
      | (Ok acc1, st1) => train_epoch_loop post acc1 st1
      | (Raise e, st1) => (Raise e, st1)
      end.
Proof.
  induction pre as [|data pre IH]; intros acc st.
  - reflexivity.
  - rewrite <- app_comm_cons, !train_epoch_loop_cons.
    destruct (train_step _ _ _ _ _ st) as [[[[loss ld] ls]|e] st2];
      [|reflexivity].
    destruct (fisnan loss); [reflexivity|]. apply IH.
Qed.

(** A pass that completes has advanced the counter by one per batch; one
    that stops has advanced it by one per batch that went through. *)
Lemma train_epoch_loop_step (dataset : Loader F Cond) :
  forall (acc : F * F * F) (st : St F W Cond Rng),
    match train_epoch_loop dataset acc st with
    | (Ok _, st') =>
        step (fst st') = step (fst st) + Z.of_nat (length dataset)
    | (Raise _, st') =>
        step (fst st) <= step (fst st')
        < step (fst st) + Z.of_nat (length dataset)
    end.
Proof.
  induction dataset as [|data rest IH]; intros acc st.
  - simpl. lia.
  - rewrite train_epoch_loop_cons.
    pose proof (train_step_keeps_step (clean data) (conditioned_audio data)
                  (conditioned_phonemes data) (conditioned_energy data)
                  (batch_overlap (fst st) data) st) as K.
    destruct (train_step _ _ _ _ _ st) as [[[[loss ld] ls]|e] st2];
      simpl in K; cbn [length].
    + destruct (fisnan loss).
      * lia.
      * specialize (IH (add_losses acc loss ld ls)
                      (set_step (step (fst st2) + 1) (fst st2), snd st2)).
        destruct (train_epoch_loop rest _ _) as [[a|e] st3];
          simpl in IH; lia.
    + lia.
Qed.

Lemma train_epoch_raise (dataset : Loader F Cond) (st st1 : St F W Cond Rng)
    (e : Exn) :
  train_epoch_loop dataset (fzero, fzero, fzero) st = (Raise e, st1) ->
  train_epoch dataset st = (Raise e, st1).
Proof. intros E. unfold train_epoch, bind. rewrite E. reflexivity. Qed.

(** The part of [train_epoch] after the loop. *)
Lemma train_epoch_tail_keeps_step (acc : F * F * F) :
  keeps_step
    ((let '(epoch_loss, epoch_loss_denoise, epoch_loss_spec) := acc in
      bind get_self (fun self =>
      let len := Z.of_nat (length (train_ds self)) in
      if len =? 0 then raise ZeroDivisionError
      else
        let epoch_loss := distrib_average (fdiv epoch_loss (of_int len)) in
        bind (if fltb fzero epoch_loss_denoise && fltb fzero epoch_loss_spec
              then emit (LogTrainLosses
                     (distrib_average (fdiv epoch_loss_denoise (of_int len)))
                     (distrib_average (fdiv epoch_loss_spec (of_int len))))
              else ret tt)
             (fun _ => ret epoch_loss))) : M F W Cond Rng F).
Proof. destruct acc as [[a b] c]. keeps. Qed.

(** A completed [train_epoch] over the learner's own loader went through
    every batch, and there was at least one. *)
Lemma train_epoch_ok (st st1 : St F W Cond Rng) (loss : F) :
  train_epoch (train_ds (fst st)) st = (Ok loss, st1) ->
  step (fst st1) = step (fst st) + Z.of_nat (length (train_ds (fst st)))
  /\ (1 <= length (train_ds (fst st)))%nat.
Proof.
  unfold train_epoch. intros E.
  apply bind_ok_inv in E. destruct E as [acc [sta [E1 E2]]].
  pose proof (train_epoch_loop_step (train_ds (fst st)) (fzero, fzero, fzero) st)
    as S1.
  rewrite E1 in S1.
  assert (step (fst (snd (Ok loss, st1))) = step (fst sta)) as K.
  { rewrite <- E2. apply (train_epoch_tail_keeps_step acc). }
  simpl in K.
  split; [lia|].
  destruct (train_ds (fst st)) as [|data rest] eqn:DS; [|simpl; lia].
  exfalso. simpl in E1. injection E1 as <- <-.
  revert E2. mrun. destruct st as [self world]. simpl in DS.
  rewrite DS. simpl. discriminate.
Qed.

Lemma train_after_epoch_keeps_step (epoch : Z) (loss m1 m2 : F) :
  keeps_step (train_after_epoch epoch loss m1 m2 : M F W Cond Rng (F * F)).
Proof.
  unfold train_after_epoch.
  pose proof (log_dict_keeps_step (F := F) (W := W) (Cond := Cond) (Rng := Rng)).
  pose proof train_validation_keeps_step.
  pose proof (train_checkpoint_keeps_step
                (F := F) (W := W) (Cond := Cond) (Rng := Rng)).
  keeps.
Qed.

(** [train_body] is the training pass followed by the rest of the body. *)
Lemma train_body_eq (epoch : Z) (m1 m2 : F) (self : Learner F W Cond)
    (world : World F W Rng) :
  train_body epoch m1 m2 (self, world)
  = match train_epoch (train_ds self)
            (self, add_event (Print "start training") world) with
    | (Ok loss, st1) => train_after_epoch epoch loss m1 m2 st1
    | (Raise e, st1) => (Raise e, st1)
    end.
Proof. unfold train_body. mrun. reflexivity. Qed.

(** A completed epoch body has made one training step per batch of the
    loader, and at least one. *)
Lemma train_body_ok (epoch : Z) (m1 m2 : F) (self : Learner F W Cond)
    (world : World F W Rng) (mins : F * F) (st1 : St F W Cond Rng) :
  train_body epoch m1 m2 (self, world) = (Ok mins, st1) ->
  step (fst st1) = step self + Z.of_nat (length (train_ds self))
  /\ (1 <= length (train_ds self))%nat.
Proof.
  rewrite train_body_eq.
  destruct (train_epoch _ _) as [[loss|e] sta] eqn:E; [|discriminate].
  intros E2.
  apply (train_epoch_ok (self, add_event (Print "start training") world)) in E.
  simpl in E.
  pose proof (train_after_epoch_keeps_step epoch loss m1 m2 sta) as K.
  rewrite E2 in K. simpl in K. lia.
Qed.

(** One turn of [while True]. *)
Lemma train_loop_S (fuel : nat) (max_steps : option Z) (epoch : Z)
    (m1 m2 : F) (st : St F W Cond Rng) :
  train_loop (S fuel) max_steps epoch m1 m2 st
  = match train_body epoch m1 m2 st with
    | (Ok (m1', m2'), st1) =>
        if match max_steps with
           | Some max_steps => max_steps <=? step (fst st1)
           | None => false
           end
        then (Ok Returned,
              (fst st1,
               add_event (PrintInt (step (fst st1)))
                 (add_event (Print "choose to finish") (snd st1))))
        else train_loop fuel max_steps (epoch + 1) m1' m2' st1
    | (Raise e, st1) => (Raise e, st1)
    end.
Proof.
  cbn [train_loop]. unfold bind at 1.
  destruct (train_body epoch m1 m2 st) as [[[m1' m2']|e] [l w]];
    [|reflexivity].
  mrun.
  destruct (match max_steps with Some m => m <=? step l | None => false end);
    reflexivity.
Qed.

(** C5 (as the code has it): with [max_steps = 0] and the counter at 0,
    [train] runs the body of the loop once, the whole first epoch, and ends
    at the first budget check after it, whatever bound is put on the number
    of epochs: it returns if the body completed, and has then made one
    training step per batch of the loader, at least one; it raises what the
    body raised otherwise.  The budget is looked at after an epoch only. *)
Theorem train_budget_zero (fuel : nat) (self : Learner F W Cond)
    (world : World F W Rng) :
  step self = 0 ->
  train (S fuel) (Some 0) (self, world)
  = match train_body 0 (of_int 100) (of_int 100) (self, world) with
    | (Ok _, st1) =>
        (Ok Returned,
         (fst st1,
          add_event (PrintInt (step (fst st1)))
            (add_event (Print "choose to finish") (snd st1))))
    | (Raise e, st1) => (Raise e, st1)
    end
  /\ forall mins st1,
       train_body 0 (of_int 100) (of_int 100) (self, world) = (Ok mins, st1) ->
       step (fst st1) = Z.of_nat (length (train_ds self))
       /\ (1 <= length (train_ds self))%nat.
Proof.
  intros S0.
  assert (forall mins st1,
    train_body 0 (of_int 100) (of_int 100) (self, world) = (Ok mins, st1) ->
    step (fst st1) = Z.of_nat (length (train_ds self))
    /\ (1 <= length (train_ds self))%nat) as Body.
  { intros mins st1 E. apply train_body_ok in E. rewrite S0 in E. exact E. }
  split; [|exact Body].
  unfold train. rewrite train_loop_S.
  destruct (train_body 0 (of_int 100) (of_int 100) (self, world))
    as [[[m1 m2]|e] st1] eqn:E; [|reflexivity].
  destruct (Body _ _ eq_refl) as [St _].
  destruct (Z.leb_spec 0 (step (fst st1))) as [_|L]; [reflexivity|lia].
Qed.

(** One turn of the validation loop. *)
Lemma eval_epoch_loop_cons (data : Batch F Cond) (rest : Loader F Cond)
    (acc : F) (n : nat) (st : St F W Cond Rng) :
  eval_epoch_loop (data :: rest) acc n st
  = match valid_loss (clean data) (conditioned_audio data)
            (conditioned_phonemes data) (conditioned_energy data)
            (batch_overlap (fst st) data) st with
    | (Ok (loss_val, _, _), st2) =>
        if fisnan (fadd acc loss_val)
        then (Raise (NaNLoss (step (fst st2))), st2)
        else eval_epoch_loop rest (fadd acc loss_val) (S n) st2
    | (Raise e, st2) => (Raise e, st2)
    end.
Proof.
  cbn [eval_epoch_loop]. mrun.
  destruct (valid_loss _ _ _ _ _ st) as [[[[loss ld] ls]|e] [l w]];
    [|reflexivity].
  destruct (fisnan (fadd acc loss)); reflexivity.
Qed.

Lemma eval_epoch_loop_app (pre post : Loader F Cond) :
  forall (acc : F) (n : nat) (st : St F W Cond Rng),
    eval_epoch_loop (pre ++ post) acc n st
    = match eval_epoch_loop pre acc n st with
      | (Ok (acc1, n1), st1) => eval_epoch_loop post acc1 n1 st1
      | (Raise e, st1) => (Raise e, st1)
      end.
Proof.
  induction pre as [|data pre IH]; intros acc n st.
  - reflexivity.
  - rewrite <- app_comm_cons, !eval_epoch_loop_cons.
    destruct (valid_loss _ _ _ _ _ st) as [[[[loss ld] ls]|e] st2];
      [|reflexivity].
    destruct (fisnan (fadd acc loss)); [reflexivity|]. apply IH.
Qed.

(** A NaN loss at a training step stops [train] at that step. *)
Lemma train_loop_nan (fuel : nat) (max_steps : option Z) (epoch : Z)
    (m1 m2 : F) (self : Learner F W Cond) (world : World F W Rng)
    (pre : Loader F Cond) (data : Batch F Cond) (post : Loader F Cond)
    (acc1 : F * F * F) (st1 st2 : St F W Cond Rng)
    (loss ld : F) (ls : option F) :
  train_ds self = pre ++ data :: post ->
  train_epoch_loop pre (fzero, fzero, fzero)
    (self, add_event (Print "start training") world) = (Ok acc1, st1) ->
  train_step (clean data) (conditioned_audio data)
    (conditioned_phonemes data) (conditioned_energy data)
    (batch_overlap (fst st1) data) st1 = (Ok (loss, ld, ls), st2) ->
  fisnan loss = true ->
  train_loop (S fuel) max_steps epoch m1 m2 (self, world)
  = (Raise (NaNLoss (step self + Z.of_nat (length pre))), st2).
Proof.
  intros DS Pre Step Nan.
  pose proof (train_epoch_loop_step pre (fzero, fzero, fzero)
                (self, add_event (Print "start training") world)) as S1.
  rewrite Pre in S1. simpl in S1.
  pose proof (train_step_keeps_step (clean data) (conditioned_audio data)
                (conditioned_phonemes data) (conditioned_energy data)
                (batch_overlap (fst st1) data) st1) as K.
  rewrite Step in K. simpl in K.
  rewrite train_loop_S, train_body_eq.
  rewrite (train_epoch_raise _ _ st2
             (NaNLoss (step self + Z.of_nat (length pre)))).
  - reflexivity.
  - rewrite DS, train_epoch_loop_app, Pre, train_epoch_loop_cons, Step, Nan.
    rewrite K, S1. reflexivity.
Qed.

(** A NaN running validation loss stops [eval_epoch] at that batch. *)
Lemma eval_epoch_nan (st : St F W Cond Rng)
    (pre : Loader F Cond) (data : Batch F Cond) (post : Loader F Cond)
    (acc1 : F) (n1 : nat) (st1 st2 : St F W Cond Rng)
    (loss ld : F) (ls : option F) :
  eval_epoch_loop pre fzero 0 st = (Ok (acc1, n1), st1) ->
  valid_loss (clean data) (conditioned_audio data)
    (conditioned_phonemes data) (conditioned_energy data)
    (batch_overlap (fst st1) data) st1 = (Ok (loss, ld, ls), st2) ->
  fisnan (fadd acc1 loss) = true ->
  eval_epoch (pre ++ data :: post) st = (Raise (NaNLoss (step (fst st))), st2).
Proof.
  intros Pre Step Nan.
  pose proof (eval_epoch_loop_keeps_step pre fzero 0%nat st) as K1.
  rewrite Pre in K1. simpl in K1.
  pose proof (valid_loss_keeps_step (clean data) (conditioned_audio data)
                (conditioned_phonemes data) (conditioned_energy data)
                (batch_overlap (fst st1) data) st1) as K2.
  rewrite Step in K2. simpl in K2.
  unfold eval_epoch, bind.
  rewrite eval_epoch_loop_app, Pre, eval_epoch_loop_cons, Step, Nan.
  rewrite K2, K1. reflexivity.
Qed.

(** What the [except:] clause of [mytrain] makes of an exception. *)
Lemma mytrain_handler_catches (body : M F W Cond Rng Loop)
    (st st1 : St F W Cond Rng) (e : Exn) :
  body st = (Raise e, st1) ->
  try_except body mytrain_handler st
  = if process_group (snd st1)
    then (Ok Returned,
          (fst st1,
           add_event DestroyProcessGroup
             (set_process_group false
                (add_event (Print "stratin exept") (snd st1)))))
    else (Raise (During e ProcessGroupError),
          (fst st1, add_event (Print "stratin exept") (snd st1))).
Proof.
  intros E. unfold try_except. rewrite E.
  unfold mytrain_handler, destroy_process_group. mrun.
  destruct st1 as [l w]. cbn [process_group add_event].
  destruct (process_group w); reflexivity.
Qed.

(** C4 (as the code has it): a NaN loss at a training step, or a NaN
    running validation loss, raises at once an error that names the step
    counter; no later batch is processed and nothing is retried.  The
    handler of [mytrain] then prints a fixed line and tears the process
    group down: if there is one, [mytrain] returns and the error is
    dropped; if there is none, the failure of the teardown is what
    surfaces.  (Only NaN is tested for.) *)
Theorem nan_loss_is_fatal (fuel : nat) (max_steps : option Z) (epoch : Z)
    (m1 m2 : F) (self : Learner F W Cond) (world : World F W Rng)
    (pre : Loader F Cond) (data : Batch F Cond) (post : Loader F Cond)
    (acc1 : F * F * F) (st1 st2 : St F W Cond Rng)
    (loss ld : F) (ls : option F) :
  train_ds self = pre ++ data :: post ->
  train_epoch_loop pre (fzero, fzero, fzero)
    (self, add_event (Print "start training") world) = (Ok acc1, st1) ->
  train_step (clean data) (conditioned_audio data)
    (conditioned_phonemes data) (conditioned_energy data)
    (batch_overlap (fst st1) data) st1 = (Ok (loss, ld, ls), st2) ->
  fisnan loss = true ->
  let e := NaNLoss (step self + Z.of_nat (length pre)) in
  let run := train_loop (S fuel) max_steps epoch m1 m2 in
  run (self, world) = (Raise e, st2)
  /\ try_except run mytrain_handler (self, world)
     = (if process_group (snd st2)
        then (Ok Returned,
              (fst st2,
               add_event DestroyProcessGroup
                 (set_process_group false
                    (add_event (Print "stratin exept") (snd st2)))))
        else (Raise (During e ProcessGroupError),
              (fst st2, add_event (Print "stratin exept") (snd st2))))
  /\ (forall (st : St F W Cond Rng) vpre vdata vpost vacc vn sv1 sv2 lv ldv lsv,
        eval_epoch_loop vpre fzero 0 st = (Ok (vacc, vn), sv1) ->
        valid_loss (clean vdata) (conditioned_audio vdata)
          (conditioned_phonemes vdata) (conditioned_energy vdata)
          (batch_overlap (fst sv1) vdata) sv1 = (Ok (lv, ldv, lsv), sv2) ->
        fisnan (fadd vacc lv) = true ->
        eval_epoch (vpre ++ vdata :: vpost) st
        = (Raise (NaNLoss (step (fst st))), sv2)).
Proof.
  intros DS Pre Step Nan e run.
  assert (run (self, world) = (Raise e, st2)) as R
    by (eapply train_loop_nan; eassumption).
  split; [exact R|split].
  - apply mytrain_handler_catches. exact R.
  - intros. eapply eval_epoch_nan; eassumption.
Qed.

End LoopFacts.

(* ================================================================== *)
(** * Facts about restoring a checkpoint *)

Section RestoreFacts.
Context {F W Cond Rng : Type} {num : Num F} {sq : Sqrt F}
  {ext : External F W Cond Rng}.

Lemma torch_load_absent {SD : Type} (d : Dir SD) (n : Name) :
  lookup n d = None -> torch_load d n = Raise FileNotFoundError.
Proof. intros E. unfold torch_load, max_links. simpl. now rewrite E. Qed.

(** What [restore_from_checkpoint] does when [torch.load] raises. *)
Lemma restore_load_raises (self : Learner F W Cond) (world : World F W Rng)
    (e : Exn) :
  torch_load (fs world Cwd) WeightsLink = Raise e ->
  restore_from_checkpoint (self, world)
  = if is_file_not_found e
    then (Ok false,
          (self, add_event (LogInfo "training from scratch") world))
    else (Raise e, (self, world)).
Proof.
  intros E. unfold restore_from_checkpoint. mrun. rewrite E.
  destruct (is_file_not_found e); reflexivity.
Qed.

(** C7: when the alias [weights.pt] is absent, [restore_from_checkpoint]
    returns [False] without raising, logs 'training from scratch' and
    leaves the learner as it was, so that [__init__] ends with the fresh
    state (step 0, the weights it was given); any other exception of
    [torch.load], or of loading the state it read, is raised to the caller
    and nothing is logged. *)
Theorem restore_absent_or_unreadable (self : Learner F W Cond)
    (world : World F W Rng) :
  let d := fs world Cwd in
  (lookup WeightsLink d = None ->
     restore_from_checkpoint (self, world)
     = (Ok false, (self, add_event (LogInfo "training from scratch") world)))
  /\ (forall e,
        torch_load d WeightsLink = Raise e -> is_file_not_found e = false ->
        restore_from_checkpoint (self, world) = (Raise e, (self, world)))
  /\ (forall sd e w,
        torch_load d WeightsLink = Ok sd ->
        load_weights (weights self) (sd_weights sd) = (Raise e, w) ->
        is_file_not_found e = false ->
        restore_from_checkpoint (self, world)
        = (Raise e, (set_weights w self, world)))
  /\ (forall mw tr va te m P,
        lookup WeightsLink d = None ->
        exists st,
          init mw tr va te m P world = (Ok tt, st)
          /\ step (fst st) = 0 /\ weights (fst st) = mw
          /\ grad_norm (fst st) = None
          /\ In (LogInfo "training from scratch") (events (snd st))).
Proof.
  intros d. split; [|split; [|split]].
  - intros E. rewrite (restore_load_raises self world FileNotFoundError).
    + reflexivity.
    + apply torch_load_absent. exact E.
  - intros e E N. rewrite (restore_load_raises self world e E), N. reflexivity.
  - intros sd e w E L N.
    unfold restore_from_checkpoint, load_state_dict. mrun. fold d. rewrite E.
    mrun. rewrite L. mrun. rewrite N. reflexivity.
  - intros mw tr va te m P E.
    unfold init. unfold bind at 1.
    rewrite (restore_load_raises _ world FileNotFoundError)
      by (apply torch_load_absent; exact E).
    cbn [is_file_not_found]. mrun.
    destruct (m && negb (test P)); mrun; eexists; split; try reflexivity;
      simpl; repeat split; auto.
Qed.

End RestoreFacts.

(* ================================================================== *)
(** * The overlap-masked loss: what it computes, and its denominators *)

Section LossClaims.
Context {F : Type} {num : Num F}.


End LossClaims.


(* ================================================================== *)
(** * Frame rules *)

Section StableRules.
Context {F W Cond Rng : Type} {num : Num F} {sq : Sqrt F}
  {ext : External F W Cond Rng}.
Variable R : St F W Cond Rng -> St F W Cond Rng -> Prop.
Hypothesis R_refl : forall st, R st st.
Hypothesis R_trans : forall a b c, R a b -> R b c -> R a c.

Lemma stable_ret {A} (a : A) : stable R (ret a : M F W Cond Rng A).
Proof. intros st. apply R_refl. Qed.

Lemma stable_raise {A} (e : Exn) : stable R (raise e : M F W Cond Rng A).
Proof. intros st. apply R_refl. Qed.

Lemma stable_lift {A} (r : Res A) : stable R (lift r : M F W Cond Rng A).
Proof. intros st. apply R_refl. Qed.

Lemma stable_get_self :
  stable R (get_self : M F W Cond Rng (Learner F W Cond)).
Proof. intros st. apply R_refl. Qed.

Lemma stable_get_world :
  stable R (get_world : M F W Cond Rng (World F W Rng)).
Proof. intros st. apply R_refl. Qed.

Lemma stable_modify_self (f : Learner F W Cond -> Learner F W Cond) :
  (forall l w, R (l, w) (f l, w)) ->
  stable R (modify_self f : M F W Cond Rng unit).
Proof. intros E [l w]. apply E. Qed.

Lemma stable_modify_world (f : World F W Rng -> World F W Rng) :
  (forall l w, R (l, w) (l, f w)) ->
  stable R (modify_world f : M F W Cond Rng unit).
Proof. intros E [l w]. apply E. Qed.

Lemma stable_bind {A B} (m : M F W Cond Rng A) (k : A -> M F W Cond Rng B) :
  stable R m -> (forall a, stable R (k a)) -> stable R (bind m k).
Proof.
  intros Hm Hk st. unfold bind.
  specialize (Hm st).
  destruct (m st) as [[a|e] st1]; simpl in *.
  - eapply R_trans; [exact Hm|apply Hk].
  - exact Hm.
Qed.

End StableRules.

Section Preorders.
Context {F W Cond Rng : Type} {num : Num F} {sq : Sqrt F}
  {ext : External F W Cond Rng}.

Lemma same_self_refl (st : St F W Cond Rng) : same_self st st.
Proof. reflexivity. Qed.

Lemma same_self_trans (a b c : St F W Cond Rng) :
  same_self a b -> same_self b c -> same_self a c.
Proof. unfold same_self. congruence. Qed.

Lemma same_setup_refl (st : St F W Cond Rng) : same_setup st st.
Proof. repeat split. Qed.

Lemma same_setup_trans (a b c : St F W Cond Rng) :
  same_setup a b -> same_setup b c -> same_setup a c.
Proof. unfold same_setup. intuition congruence. Qed.

Lemma same_files_refl (st : St F W Cond Rng) : same_files st st.
Proof. repeat split. Qed.

Lemma same_files_trans (a b c : St F W Cond Rng) :
  same_files a b -> same_files b c -> same_files a c.
Proof. unfold same_files. intuition congruence. Qed.

End Preorders.

(** Walks through a computation; the relation is one of the three above. *)
Ltac frame_leaf :=
  intros; first
    [ reflexivity
    | repeat split; reflexivity ].

Ltac frame R_refl R_trans :=
  repeat first
    [ solve [auto]
    | apply (stable_ret _ R_refl)
    | apply (stable_raise _ R_refl)
    | apply (stable_lift _ R_refl)
    | apply (stable_get_self _ R_refl)
    | apply (stable_get_world _ R_refl)
    | apply stable_modify_world; solve [frame_leaf]
    | apply stable_modify_self; solve [frame_leaf]
    | apply (stable_bind _ R_trans); [|intros ?]
    | match goal with
      | |- stable _ (match ?x with _ => _ end) => destruct x
      end
    | progress cbv beta
    | progress unfold emit, logger_info, print, print_int, draw_randint,
        draw_randn_like ].

Section FrameFacts.
Context {F W Cond Rng : Type} {num : Num F} {sq : Sqrt F}
  {ext : External F W Cond Rng}.

Local Abbreviation quiet m :=
  (stable same_files (m : M F W Cond Rng _)).
Local Abbreviation fixed m :=
  (stable same_setup (m : M F W Cond Rng _)).
Local Abbreviation pure m :=
  (stable same_self (m : M F W Cond Rng _)).

Ltac quiet_tac := frame (@same_files_refl F W Cond Rng) (@same_files_trans F W Cond Rng).
Ltac fixed_tac := frame (@same_setup_refl F W Cond Rng) (@same_setup_trans F W Cond Rng).
Ltac pure_tac := frame (@same_self_refl F W Cond Rng) (@same_self_trans F W Cond Rng).

(** *** What never touches the file system *)

Lemma apply_log_mel_spec_quiet (x : Tensor2 F) : quiet (apply_log_mel_spec x).
Proof. unfold apply_log_mel_spec. quiet_tac. Qed.

Lemma train_step_noisy_audio_quiet (audio : Tensor2 F) :
  quiet (train_step_noisy_audio audio).
Proof. unfold train_step_noisy_audio. quiet_tac. Qed.

Lemma train_step_quiet (audio ac : Tensor2 F) (ph en : Cond)
    (ov : option (list Z)) :
  quiet (train_step audio ac ph en ov).
Proof.
  unfold train_step.
  pose proof apply_log_mel_spec_quiet.
  pose proof train_step_noisy_audio_quiet.
  quiet_tac.
Qed.

Lemma valid_loss_quiet (audio ac : Tensor2 F) (ph en : Cond)
    (ov : option (list Z)) :
  quiet (valid_loss audio ac ph en ov).
Proof.
  unfold valid_loss, valid_loss_noisy_audio.
  pose proof apply_log_mel_spec_quiet.
  quiet_tac.
Qed.

Lemma train_epoch_loop_quiet (dataset : Loader F Cond) :
  forall acc, quiet (train_epoch_loop dataset acc).
Proof.
  induction dataset as [|data rest IH]; intros acc; simpl.
  - quiet_tac.
  - pose proof train_step_quiet. quiet_tac.
Qed.

Lemma train_epoch_quiet (dataset : Loader F Cond) :
  quiet (train_epoch dataset).
Proof. unfold train_epoch. pose proof train_epoch_loop_quiet. quiet_tac. Qed.

Lemma eval_epoch_loop_quiet (dataset : Loader F Cond) :
  forall acc n, quiet (eval_epoch_loop dataset acc n).
Proof.
  induction dataset as [|data rest IH]; intros acc n; simpl.
  - quiet_tac.
  - pose proof valid_loss_quiet. quiet_tac.
Qed.

Lemma eval_epoch_quiet (dataset : Loader F Cond) : quiet (eval_epoch dataset).
Proof. unfold eval_epoch. pose proof eval_epoch_loop_quiet. quiet_tac. Qed.

Lemma add_scalars_quiet (d : list (string * F)) : quiet (add_scalars d).
Proof. induction d as [|[k v] d IH]; simpl; quiet_tac. Qed.

Lemma log_dict_quiet (d : list (string * F)) : quiet (log_dict d).
Proof. unfold log_dict. pose proof add_scalars_quiet. quiet_tac. Qed.

(** *** What never touches [self] *)

Lemma apply_log_mel_spec_pure (x : Tensor2 F) : pure (apply_log_mel_spec x).
Proof. unfold apply_log_mel_spec. pure_tac. Qed.

Lemma valid_loss_pure (audio ac : Tensor2 F) (ph en : Cond)
    (ov : option (list Z)) :
  pure (valid_loss audio ac ph en ov).
Proof.
  unfold valid_loss, valid_loss_noisy_audio.
  pose proof apply_log_mel_spec_pure.
  pure_tac.
Qed.

Lemma eval_epoch_loop_pure (dataset : Loader F Cond) :
  forall acc n, pure (eval_epoch_loop dataset acc n).
Proof.
  induction dataset as [|data rest IH]; intros acc n; simpl.
  - pure_tac.
  - pose proof valid_loss_pure. pure_tac.
Qed.

Lemma eval_epoch_pure (dataset : Loader F Cond) : pure (eval_epoch dataset).
Proof. unfold eval_epoch. pose proof eval_epoch_loop_pure. pure_tac. Qed.

Lemma add_scalars_pure (d : list (string * F)) : pure (add_scalars d).
Proof. induction d as [|[k v] d IH]; simpl; pure_tac. Qed.

Lemma log_dict_pure (d : list (string * F)) : pure (log_dict d).
Proof. unfold log_dict. pose proof add_scalars_pure. pure_tac. Qed.

Lemma save_in_pure (folder : Folder) : pure (save_in folder).
Proof. unfold save_in. pure_tac. Qed.

(** *** What never touches the set-up *)

Lemma apply_log_mel_spec_fixed (x : Tensor2 F) : fixed (apply_log_mel_spec x).
Proof. unfold apply_log_mel_spec. fixed_tac. Qed.

Lemma train_step_noisy_audio_fixed (audio : Tensor2 F) :
  fixed (train_step_noisy_audio audio).
Proof. unfold train_step_noisy_audio. fixed_tac. Qed.

Lemma train_step_fixed (audio ac : Tensor2 F) (ph en : Cond)
    (ov : option (list Z)) :
  fixed (train_step audio ac ph en ov).
Proof.
  unfold train_step.
  pose proof apply_log_mel_spec_fixed.
  pose proof train_step_noisy_audio_fixed.
  fixed_tac.
Qed.

Lemma train_epoch_loop_fixed (dataset : Loader F Cond) :
  forall acc, fixed (train_epoch_loop dataset acc).
Proof.
  induction dataset as [|data rest IH]; intros acc; simpl.
  - fixed_tac.
  - pose proof train_step_fixed. fixed_tac.
Qed.

Lemma train_epoch_fixed (dataset : Loader F Cond) :
  fixed (train_epoch dataset).
Proof. unfold train_epoch. pose proof train_epoch_loop_fixed. fixed_tac. Qed.

Lemma pure_fixed {A} (m : M F W Cond Rng A) :
  stable same_self m -> stable same_setup m.
Proof.
  intros P st. specialize (P st). unfold same_self in P.
  unfold same_setup. rewrite P. repeat split.
Qed.

Lemma train_after_epoch_fixed (epoch : Z) (loss m1 m2 : F) :
  fixed (train_after_epoch epoch loss m1 m2).
Proof.
  unfold train_after_epoch, train_validation, train_checkpoint,
    save_to_min_checkpoint, save_to_checkpoint.
  assert (forall d, fixed (log_dict d))
    by (intros; apply pure_fixed, log_dict_pure).
  assert (forall ds, fixed (eval_epoch ds))
    by (intros; apply pure_fixed, eval_epoch_pure).
  assert (forall f, fixed (save_in f))
    by (intros; apply pure_fixed, save_in_pure).
  fixed_tac.
Qed.

Lemma train_body_fixed (epoch : Z) (m1 m2 : F) :
  fixed (train_body epoch m1 m2).
Proof.
  unfold train_body.
  pose proof train_epoch_fixed. pose proof train_after_epoch_fixed.
  fixed_tac.
Qed.

Lemma train_loop_fixed (fuel : nat) (max_steps : option Z) :
  forall epoch m1 m2, fixed (train_loop fuel max_steps epoch m1 m2).
Proof.
  induction fuel as [|fuel IH]; intros epoch m1 m2; simpl.
  - fixed_tac.
  - pose proof train_body_fixed. fixed_tac.
Qed.

End FrameFacts.

(* ================================================================== *)
(** * Further facts about the learner *)

Section LearnerExtras.
Context {F W Cond Rng : Type} {num : Num F} {sq : Sqrt F}
  {ext : External F W Cond Rng}.

(** X1: a validation pass changes nothing of the learner (weights,
    optimiser state, step counter, gradient norm all stay) and nothing of
    the file system, whatever its outcome; all it consumes is random
    draws. *)
Theorem eval_epoch_leaves_learner (dataset : Loader F Cond)
    (st : St F W Cond Rng) :
  fst (snd (eval_epoch dataset st)) = fst st
  /\ fs (snd (snd (eval_epoch dataset st))) = fs (snd st)
  /\ process_group (snd (snd (eval_epoch dataset st))) = process_group (snd st).
Proof.
  pose proof (eval_epoch_pure dataset st) as P.
  pose proof (eval_epoch_quiet dataset st) as [Q1 [_ Q3]].
  split; [exact P|split; assumption].
Qed.

(** X2: however a call of [train] ends, and after any number of epochs,
    the parameters, the three loaders, the master flag, the retention
    curve and the log-mel attribute are those it started with; a learner
    that was as [__init__] built it is still so. *)
Theorem train_keeps_setup (fuel : nat) (max_steps : option Z)
    (st : St F W Cond Rng) :
  same_setup st (snd (train fuel max_steps st))
  /\ (as_constructed (fst st) ->
      as_constructed (fst (snd (train fuel max_steps st)))).
Proof.
  pose proof (train_loop_fixed fuel max_steps 0 (of_int 100) (of_int 100) st)
    as S.
  fold (train fuel max_steps) in S.
  split; [exact S|].
  destruct S as [P [_ [_ [_ [_ [N L]]]]]].
  unfold as_constructed. rewrite P, N, L. tauto.
Qed.

Lemma train_loop_without_budget (fuel : nat) :
  forall (epoch : Z) (m1 m2 : F) (st : St F W Cond Rng),
    fst (train_loop fuel None epoch m1 m2 st) <> Ok Returned.
Proof.
  induction fuel as [|fuel IH]; intros epoch m1 m2 st.
  - simpl. discriminate.
  - rewrite train_loop_S.
    destruct (train_body epoch m1 m2 st) as [[[a b]|e] st1].
    + apply IH.
    + simpl. discriminate.
Qed.

(** X3: without a step budget [train] never returns: whatever bound is
    put on the number of epochs, it is still looping at that bound or has
    raised. *)
Theorem train_without_budget_never_returns (fuel : nat)
    (st : St F W Cond Rng) :
  fst (train fuel None st) <> Ok Returned.
Proof. apply train_loop_without_budget. Qed.

(** X4: [test] cannot succeed on a learner that has a test set: either
    the evaluation pass raises, or the one number it returns fails to
    unpack into [pesq, stoi]. *)
Theorem test_with_test_set_raises (st : St F W Cond Rng)
    (ds : Loader F Cond) :
  test_ds (fst st) = Some ds ->
  exists e st',
    test_ st = (Raise e, st')
    /\ fst st' = fst st
    /\ (eval_epoch ds st = (Raise e, st')
        \/ (e = TypeError /\ exists x, eval_epoch ds st = (Ok x, st'))).
Proof.
  intros T. unfold test_. mrun. destruct st as [l w]. simpl in T.
  rewrite T.
  pose proof (eval_epoch_pure ds (l, w)) as P. unfold same_self in P.
  destruct (eval_epoch ds (l, w)) as [[x|e] st1]; simpl in P.
  - exists TypeError, st1. repeat split; auto. right. split; eauto.
  - exists e, st1. repeat split; auto.
Qed.

Lemma train_loop_returned (fuel : nat) (m : Z) :
  forall (epoch : Z) (m1 m2 : F) (st st' : St F W Cond Rng),
    train_loop fuel (Some m) epoch m1 m2 st = (Ok Returned, st') ->
    let n := Z.of_nat (length (train_ds (fst st))) in
    1 <= n
    /\ m <= step (fst st')
    /\ exists k : Z,
         1 <= k <= Z.of_nat fuel
         /\ step (fst st') = step (fst st) + k * n
         /\ (k = 1 \/ step (fst st') - n < m).
Proof.
  induction fuel as [|fuel IH]; intros epoch m1 m2 st st' E n.
  - simpl in E. discriminate.
  - rewrite train_loop_S in E.
    pose proof (train_body_fixed epoch m1 m2 st) as [_ [DS _]].
    destruct st as [self world].
    destruct (train_body epoch m1 m2 (self, world)) as [[[a b]|e] st1] eqn:B;
      [|discriminate].
    apply train_body_ok in B. destruct B as [B1 B2].
    simpl in DS, n. fold n in B1.
    assert (1 <= n) as N1 by (unfold n; lia).
    destruct (Z.leb_spec m (step (fst st1))) as [L|L].
    + injection E as <-. cbn [fst].
      split; [exact N1|]. split; [exact L|].
      exists 1. cbn [step fst]. repeat split; lia.
    + apply IH in E. cbv zeta in E. rewrite DS in E. fold n in E.
      destruct E as [_ [M [k [[K1 K2] [S K]]]]].
      split; [exact N1|]. split; [exact M|].
      exists (k + 1). cbn [fst]. repeat split; lia.
Qed.

Lemma train_loop_terminates (fuel : nat) (m : Z) :
  forall (epoch : Z) (m1 m2 : F) (st : St F W Cond Rng),
    (1 <= fuel)%nat ->
    m - step (fst st) <= Z.of_nat fuel ->
    fst (train_loop fuel (Some m) epoch m1 m2 st) <> Ok OutOfFuel.
Proof.
  induction fuel as [|fuel IH]; intros epoch m1 m2 st F1 Bd; [lia|].
  rewrite train_loop_S.
  destruct st as [self world].
  destruct (train_body epoch m1 m2 (self, world)) as [[[a b]|e] st1] eqn:B;
    [|simpl; discriminate].
  apply train_body_ok in B. destruct B as [B1 B2]. simpl in Bd.
  destruct (Z.leb_spec m (step (fst st1))) as [L|L].
  - simpl. discriminate.
  - apply IH; lia.
Qed.

(** X5: when [train] returns under a step budget, the counter has reached
    the budget and is a whole number of epochs past its starting value; the
    budget is overshot by less than one epoch, unless the very first epoch
    already reached it. *)
Theorem train_budget_overshoot (fuel : nat) (m : Z)
    (st st' : St F W Cond Rng) :
  train fuel (Some m) st = (Ok Returned, st') ->
  let n := Z.of_nat (length (train_ds (fst st))) in
  1 <= n
  /\ m <= step (fst st')
  /\ exists k : Z,
       1 <= k <= Z.of_nat fuel
       /\ step (fst st') = step (fst st) + k * n
       /\ (k = 1 \/ step (fst st') - n < m).
Proof. apply train_loop_returned. Qed.

(** X6: under a step budget [train] ends, by returning or by raising,
    within as many epochs as the budget exceeds the counter (and within
    one if it does not): every epoch that completes advances the counter
    by at least one. *)
Theorem train_budget_terminates (fuel : nat) (m : Z) (st : St F W Cond Rng) :
  (1 <= fuel)%nat ->
  m - step (fst st) <= Z.of_nat fuel ->
  fst (train fuel (Some m) st) <> Ok OutOfFuel.
Proof. apply train_loop_terminates. Qed.

(** *** A replica that is not the master *)

Ltac quiet_tac :=
  frame (@same_files_refl F W Cond Rng) (@same_files_trans F W Cond Rng).
Ltac fixed_tac :=
  frame (@same_setup_refl F W Cond Rng) (@same_setup_trans F W Cond Rng).

Local Abbreviation silent m :=
  (guarded not_master same_files (m : M F W Cond Rng _)).

Lemma guarded_stable {A} (m : M F W Cond Rng A) :
  stable same_files m -> stable same_setup m ->
  guarded not_master same_files m.
Proof.
  intros Q S st P. split; [apply Q|].
  destruct (S st) as [_ [_ [_ [_ [I _]]]]].
  unfold not_master in *. congruence.
Qed.

Lemma guarded_bind {A B} (m : M F W Cond Rng A)
    (k : A -> M F W Cond Rng B) :
  guarded not_master same_files m ->
  (forall a, guarded not_master same_files (k a)) ->
  guarded not_master same_files (bind m k).
Proof.
  intros Hm Hk st P. unfold bind.
  destruct (Hm st P) as [Q1 P1].
  destruct (m st) as [[a|e] st1]; simpl in *.
  - destruct (Hk a st1 P1) as [Q2 P2].
    split; [eapply same_files_trans; eassumption|exact P2].
  - split; assumption.
Qed.

Lemma guarded_same {A} (m : M F W Cond Rng A) (a : A) :
  (forall st, not_master st -> m st = (Ok a, st)) ->
  guarded not_master same_files m.
Proof.
  intros E st P. rewrite (E st P). split; [apply same_files_refl|exact P].
Qed.

Lemma log_dict_not_master (d : list (string * F)) : silent (log_dict d).
Proof.
  apply guarded_stable.
  - apply log_dict_quiet.
  - apply pure_fixed, log_dict_pure.
Qed.

Lemma eval_epoch_not_master (ds : Loader F Cond) : silent (eval_epoch ds).
Proof.
  apply guarded_stable.
  - apply eval_epoch_quiet.
  - apply pure_fixed, eval_epoch_pure.
Qed.

Lemma ret_not_master {A} (a : A) : silent (ret a).
Proof. apply guarded_stable; [quiet_tac|fixed_tac]. Qed.

Lemma guarded_get_self {B} (k : Learner F W Cond -> M F W Cond Rng B) :
  (forall self, is_master self = false ->
                guarded not_master same_files (k self)) ->
  guarded not_master same_files (bind get_self k).
Proof. intros H [l w] P. apply (H l P (l, w) P). Qed.

Lemma train_checkpoint_not_master (epoch : Z) (loss m : F) :
  silent (train_checkpoint epoch loss m).
Proof.
  unfold train_checkpoint.
  apply guarded_get_self. intros self P. rewrite P.
  apply ret_not_master.
Qed.

Lemma train_validation_not_master (epoch : Z) (m : F) :
  silent (train_validation epoch m).
Proof.
  unfold train_validation.
  apply guarded_get_self. intros self P.
  apply guarded_bind; [apply guarded_stable; [quiet_tac|fixed_tac]|intros r].
  destruct (valid_ds self) as [valid|]; [|apply ret_not_master].
  destruct ((r =? 0) && negb (epoch =? 0)); [|apply ret_not_master].
  apply guarded_bind; [apply guarded_stable; [quiet_tac|fixed_tac]|intros _].
  apply guarded_bind; [apply eval_epoch_not_master|intros v].
  apply guarded_bind; [apply log_dict_not_master|intros _].
  rewrite P. apply ret_not_master.
Qed.

Lemma train_after_epoch_not_master (epoch : Z) (loss m1 m2 : F) :
  silent (train_after_epoch epoch loss m1 m2).
Proof.
  unfold train_after_epoch.
  apply guarded_bind; [apply guarded_stable; [quiet_tac|fixed_tac]|intros self].
  apply guarded_bind.
  { destruct (grad_norm self); apply guarded_stable; quiet_tac || fixed_tac. }
  intros g.
  apply guarded_bind; [apply log_dict_not_master|intros _].
  apply guarded_bind; [apply train_validation_not_master|intros v].
  apply guarded_bind; [apply train_checkpoint_not_master|intros c].
  apply guarded_bind; [apply guarded_stable; [quiet_tac|fixed_tac]|intros s].
  apply guarded_bind; [apply guarded_stable; [quiet_tac|fixed_tac]|intros _].
  apply ret_not_master.
Qed.

Lemma train_body_not_master (epoch : Z) (m1 m2 : F) :
  silent (train_body epoch m1 m2).
Proof.
  unfold train_body.
  apply guarded_bind; [apply guarded_stable; [quiet_tac|fixed_tac]|intros _].
  apply guarded_bind; [apply guarded_stable; [quiet_tac|fixed_tac]|intros s].
  apply guarded_bind.
  { apply guarded_stable; [apply train_epoch_quiet|apply train_epoch_fixed]. }
  intros loss. apply train_after_epoch_not_master.
Qed.

Lemma train_loop_not_master (fuel : nat) (max_steps : option Z) :
  forall epoch m1 m2, silent (train_loop fuel max_steps epoch m1 m2).
Proof.
  induction fuel as [|fuel IH]; intros epoch m1 m2; cbn [train_loop].
  - apply ret_not_master.
  - apply guarded_bind; [apply train_body_not_master|intros [a b]].
    apply guarded_bind; [apply guarded_stable; [quiet_tac|fixed_tac]|intros s].
    destruct (match max_steps with
              | Some m => m <=? step s | None => false end).
    + apply guarded_bind;
        [apply guarded_stable; [quiet_tac|fixed_tac]|intros _].
      apply guarded_bind;
        [apply guarded_stable; [quiet_tac|fixed_tac]|intros _].
      apply ret_not_master.
    + apply IH.
Qed.

(** X7: on a replica that is not the master, [train] writes no
    checkpoint: whatever its outcome and however many epochs it ran, every
    directory is as it was (and the process group is untouched). *)
Theorem non_master_never_saves (fuel : nat) (max_steps : option Z)
    (st : St F W Cond Rng) :
  is_master (fst st) = false ->
  fs (snd (snd (train fuel max_steps st))) = fs (snd st)
  /\ process_group (snd (snd (train fuel max_steps st)))
     = process_group (snd st).
Proof.
  intros P.
  destruct (train_loop_not_master fuel max_steps 0 (of_int 100) (of_int 100)
              st P) as [[Q1 [_ Q3]] _].
  split; assumption.
Qed.

End LearnerExtras.

(* ================================================================== *)
(** * Saving, then restoring *)

Section RoundTrip.
Context {SD : Type}.









End RoundTrip.

Section RoundTripLearner.
Context {F W Cond Rng : Type} {num : Num F} {sq : Sqrt F}
  {ext : External F W Cond Rng}.


(** X9: a save to a best-loss folder changes neither the working
    directory nor [self], so what [restore_from_checkpoint] finds is what
    it would have found before: the best-loss pools are written but never
    read back. *)
Theorem min_checkpoint_not_restored (tgt_folder : string)
    (st : St F W Cond Rng) (other : Learner F W Cond) :
  let st1 := snd (save_to_min_checkpoint tgt_folder st) in
  fs (snd st1) Cwd = fs (snd st) Cwd
  /\ fst st1 = fst st
  /\ fst (restore_from_checkpoint (other, snd st1))
     = fst (restore_from_checkpoint (other, snd st))
  /\ fst (snd (restore_from_checkpoint (other, snd st1)))
     = fst (snd (restore_from_checkpoint (other, snd st))).
Proof.
  intros st1.
  assert (fs (snd st1) Cwd = fs (snd st) Cwd) as E.
  { subst st1. destruct st as [l w].
    unfold save_to_min_checkpoint, save_in. mrun.
    destruct (save_in_dir _ _ _ _) as [[u|e] d]; reflexivity. }
  split; [exact E|]. split.
  { subst st1. apply (save_in_pure (Sub tgt_folder) st). }
  clearbody st1. destruct st1 as [l1 w1], st as [l0 w0]. simpl in E.
  unfold restore_from_checkpoint, load_state_dict. mrun. rewrite E.
  destruct (torch_load (fs w0 Cwd) WeightsLink) as [sd|e]; mrun.
  - destruct (load_weights (weights other) (sd_weights sd)) as [[u|e] w'];
      mrun; [split; reflexivity|].
    destruct (is_file_not_found e); split; reflexivity.
  - destruct (is_file_not_found e); split; reflexivity.
Qed.

End RoundTripLearner.

(* ================================================================== *)
(** * The overlap-masked loss: shapes and masked samples *)

Section LossExtras.
Context {F : Type} {num : Num F}.

Lemma update_row_some (f : Tensor1 F -> Tensor1 F) (loss : Tensor2 F) :
  forall row, (row < length loss)%nat ->
    exists loss', update_row row f loss = Some loss'
                  /\ length loss' = length loss.
Proof.
  induction loss as [|r loss IH]; intros [|row] L; simpl in *; try lia.
  - eexists; split; reflexivity.
  - destruct (IH row) as [loss' [E Len]]; [lia|].
    rewrite E. eexists; split; [reflexivity|]. simpl. now rewrite Len.
Qed.

Lemma mask_rows_some (m : Z) (ov : list Z) :
  forall (row : nat) (loss : Tensor2 F),
    (row + length ov <= length loss)%nat ->
    exists loss', mask_rows m row ov loss = Ok loss'
                  /\ length loss' = length loss.
Proof.
  induction ov as [|k ov IH]; intros row loss L; simpl in *.
  - eexists; split; reflexivity.
  - destruct (update_row_some (zero_prefix (Z.to_nat (Z.max 0 (k - m))))
                loss row) as [loss1 [E Len]]; [lia|].
    rewrite E.
    destruct (IH (S row) loss1) as [loss2 [E2 Len2]]; [lia|].
    exists loss2. split; [exact E2 | congruence].
Qed.

Lemma l1_loss_none_length (noise predicted : Tensor2 F) :
  length predicted = length noise ->
  length (l1_loss_none noise predicted) = length noise.
Proof.
  intros E. unfold l1_loss_none. apply map2_length. now symmetry.
Qed.

(** X10: the three ways [get_loss_with_overlap_mask] fails.  A negative
    margin fails the assertion before anything is computed.  With a
    margin that is not negative and tensors of [N] rows each, an
    [overlap] of more than [N] entries runs the masking loop off the
    tensor ([IndexError]), and one of fewer than [N] but at least two
    entries passes the loop and fails at the division by [non_overlap]
    (shapes [N,T] and [M,1]). *)
Theorem masked_loss_errors (P : Params F) (noise predicted : Tensor2 F)
    (ov : list Z) :
  (mask_loss_using_overlap P < 0 ->
   get_loss_with_overlap_mask P noise predicted ov = Raise AssertionError)
  /\ (0 <= mask_loss_using_overlap P ->
      length predicted = length noise ->
      (length noise < length ov)%nat ->
      get_loss_with_overlap_mask P noise predicted ov = Raise IndexError)
  /\ (0 <= mask_loss_using_overlap P ->
      length predicted = length noise ->
      (2 <= length ov < length noise)%nat ->
      get_loss_with_overlap_mask P noise predicted ov = Raise ShapeError).
Proof.
  unfold get_loss_with_overlap_mask.
  split; [|split].
  - intros L. destruct (Z.ltb_spec (mask_loss_using_overlap P) 0); [|lia].
    reflexivity.
  - intros M E L.
    destruct (Z.ltb_spec (mask_loss_using_overlap P) 0); [lia|].
    rewrite mask_rows_index_error; [reflexivity| |lia].
    rewrite l1_loss_none_length by exact E. simpl. exact L.
  - intros M E [L2 L].
    destruct (Z.ltb_spec (mask_loss_using_overlap P) 0); [lia|].
    destruct (mask_rows_some (mask_loss_using_overlap P) ov 0
                (l1_loss_none noise predicted)) as [loss' [R Len]].
    { rewrite l1_loss_none_length by exact E. simpl. lia. }
    rewrite R. cbn [res_bind].
    rewrite l1_loss_none_length in Len by exact E.
    unfold div_rows. rewrite non_overlap_length.
    destruct (Nat.eqb_spec (length ov) (length loss')) as [Q|_]; [lia|].
    unfold non_overlap.
    destruct ov as [|k1 [|k2 ov]]; simpl in L2; try lia.
    destruct loss' as [|r1 [|r2 loss']]; simpl in Len, L; try lia.
    reflexivity.
Qed.

Lemma skipn_map2 {A B C} (f : A -> B -> C) (k : nat) :
  forall (l : list A) (m : list B),
    skipn k (map2 f l m) = map2 f (skipn k l) (skipn k m).
Proof.
  induction k as [|k IH]; intros [|a l] [|b m]; simpl; try reflexivity.
  - now destruct (skipn k l).
  - apply IH.
Qed.

Lemma spec_row_terms_unmasked (m b T k : Z) (n p n' p' : Tensor1 F) :
  length n = length p -> length n' = length p' -> length n = length n' ->
  skipn (Z.to_nat (Z.max 0 (k - m))) n = skipn (Z.to_nat (Z.max 0 (k - m))) n' ->
  skipn (Z.to_nat (Z.max 0 (k - m))) p = skipn (Z.to_nat (Z.max 0 (k - m))) p' ->
  spec_row_terms m b T n p k = spec_row_terms m b T n' p' k.
Proof.
  intros E1 E2 E3 Sn Sp. unfold spec_row_terms. f_equal.
  rewrite !masked_row_from_zero_prefix. unfold zero_prefix.
  rewrite !skipn_map2, !map2_length by assumption.
  simpl. rewrite Z.sub_0_r, Sn, Sp, E3. reflexivity.
Qed.

Lemma spec_terms_unmasked (m b T : Z) (len : nat) (ov : list Z) :
  forall (noise predicted noise' predicted' : Tensor2 F),
    Forall (fun r => length r = len) noise ->
    Forall (fun r => length r = len) predicted ->
    Forall (fun r => length r = len) noise' ->
    Forall (fun r => length r = len) predicted' ->
    length noise = length ov -> length predicted = length ov ->
    length noise' = length ov -> length predicted' = length ov ->
    unmasked m noise ov = unmasked m noise' ov ->
    unmasked m predicted ov = unmasked m predicted' ov ->
    spec_terms m b T noise predicted ov
    = spec_terms m b T noise' predicted' ov.
Proof.
  unfold unmasked.
  induction ov as [|k ov IH];
    intros [|n noise] [|p predicted] [|n' noise'] [|p' predicted']
      A B A' B' E1 E2 E3 E4 U V; simpl in *; try discriminate;
    try reflexivity.
  inversion A; inversion B; inversion A'; inversion B'; subst.
  injection U as U1 U2. injection V as V1 V2.
  f_equal.
  - apply spec_row_terms_unmasked; congruence.
  - apply IH; auto.
Qed.

(** X11: the samples under the mask do not count.  Two pairs of [N,T]
    tensors that agree, row by row, from index
    [max(0, overlap[row] - margin)] on have the same overlap-masked
    loss, whatever they hold before that index. *)
Theorem masked_samples_do_not_count (P : Params F) (T : nat)
    (noise predicted noise' predicted' : Tensor2 F) (ov : list Z) :
  0 <= mask_loss_using_overlap P ->
  Forall (fun r => length r = T) noise ->
  Forall (fun r => length r = T) predicted ->
  Forall (fun r => length r = T) noise' ->
  Forall (fun r => length r = T) predicted' ->
  length noise = length ov -> length predicted = length ov ->
  length noise' = length ov -> length predicted' = length ov ->
  unmasked (mask_loss_using_overlap P) noise ov
  = unmasked (mask_loss_using_overlap P) noise' ov ->
  unmasked (mask_loss_using_overlap P) predicted ov
  = unmasked (mask_loss_using_overlap P) predicted' ov ->
  get_loss_with_overlap_mask P noise predicted ov
  = get_loss_with_overlap_mask P noise' predicted' ov.
Proof.
  intros M A B A' B' E1 E2 E3 E4 U V.
  rewrite (get_loss_with_overlap_mask_spec P T noise predicted ov);
    try assumption; try congruence.
  rewrite (get_loss_with_overlap_mask_spec P T noise' predicted' ov);
    try assumption; try congruence.
  unfold spec_masked_loss. do 2 f_equal.
  apply (spec_terms_unmasked _ _ _ T); assumption.
Qed.

End LossExtras.

(* ================================================================== *)
(** * The [except:] clause of [mytrain] *)

Section HandlerFacts.
Context {F W Cond Rng : Type} {num : Num F} {sq : Sqrt F}
  {ext : External F W Cond Rng}.

Lemma same_group_refl (st : St F W Cond Rng) : same_group st st.
Proof. reflexivity. Qed.

Lemma same_group_trans (a b c : St F W Cond Rng) :
  same_group a b -> same_group b c -> same_group a c.
Proof. unfold same_group. congruence. Qed.

Local Abbreviation grouped m :=
  (stable same_group (m : M F W Cond Rng _)).

Ltac grouped_tac :=
  frame same_group_refl same_group_trans.

Lemma quiet_grouped {A} (m : M F W Cond Rng A) :
  stable same_files m -> stable same_group m.
Proof. intros Q st. destruct (Q st) as [_ [_ G]]. exact G. Qed.

Lemma save_in_grouped (folder : Folder) : grouped (save_in folder).
Proof. unfold save_in. grouped_tac. Qed.

Lemma restore_from_checkpoint_grouped : grouped restore_from_checkpoint.
Proof.
  intros st. unfold restore_from_checkpoint.
  match goal with
  | |- same_group st (snd (match ?m st with _ => _ end)) =>
      assert (grouped m) as G
        by (unfold load_state_dict; grouped_tac);
      specialize (G st); destruct (m st) as [[b|e] st1]
  end.
  - exact G.
  - simpl in G. destruct (is_file_not_found e); [|exact G].
    apply (same_group_trans st st1); [exact G|].
    destruct st1 as [l w]. reflexivity.
Qed.

Lemma train_after_epoch_grouped (epoch : Z) (loss m1 m2 : F) :
  grouped (train_after_epoch epoch loss m1 m2).
Proof.
  unfold train_after_epoch, train_validation, train_checkpoint,
    save_to_min_checkpoint, save_to_checkpoint.
  assert (forall d, grouped (log_dict d))
    by (intros; apply quiet_grouped, log_dict_quiet).
  assert (forall ds, grouped (eval_epoch ds))
    by (intros; apply quiet_grouped, eval_epoch_quiet).
  pose proof save_in_grouped.
  grouped_tac.
Qed.

Lemma train_body_grouped (epoch : Z) (m1 m2 : F) :
  grouped (train_body epoch m1 m2).
Proof.
  unfold train_body.
  assert (forall ds, grouped (train_epoch ds))
    by (intros; apply quiet_grouped, train_epoch_quiet).
  pose proof train_after_epoch_grouped.
  grouped_tac.
Qed.

Lemma train_loop_grouped (fuel : nat) (max_steps : option Z) :
  forall epoch m1 m2, grouped (train_loop fuel max_steps epoch m1 m2).
Proof.
  induction fuel as [|fuel IH]; intros epoch m1 m2; simpl.
  - grouped_tac.
  - pose proof train_body_grouped. grouped_tac.
Qed.

Lemma test_grouped : grouped test_.
Proof.
  unfold test_.
  assert (forall ds, grouped (eval_epoch ds))
    by (intros; apply quiet_grouped, eval_epoch_quiet).
  grouped_tac.
Qed.

(** X12: what [mytrain] lets through.  An exception that [mytrain]
    raises is one that the construction of the learner raised, or it is
    the failure to destroy a process group that does not exist, with the
    exception of [train] or [test] as its context.  So in a distributed
    run no exception of [train] or [test] reaches the caller, and in a
    single process none reaches it as itself. *)
Theorem mytrain_lets_through (replica_id replica_count : Z)
    (P : Params F) (model_weights : W) (train_ds : Loader F Cond)
    (valid_ds test_ds : option (Loader F Cond)) (fuel : nat)
    (world : World F W Rng) (e : Exn) :
  fst (mytrain replica_id replica_count P model_weights train_ds valid_ds
         test_ds fuel world) = Raise e ->
  let world' :=
    if 1 <? replica_count then set_process_group true world else world in
  let replica_id' := if replica_id_attempt P =? 3 then 3 else replica_id in
  fst (init model_weights train_ds valid_ds test_ds (replica_id' =? 0) P
         world') = Raise e
  \/ (replica_count <= 1 /\ process_group world = false
      /\ exists e0, e = During e0 ProcessGroupError).
Proof.
  intros E world' replica_id'. unfold mytrain in E.
  fold world' replica_id' in E.
  assert (process_group
            (snd (snd (init model_weights train_ds valid_ds test_ds
                         (replica_id' =? 0) P world')))
          = process_group world') as G0.
  { unfold init.
    match goal with
    | |- process_group (snd (snd (?m ?s))) = _ =>
        assert (grouped m) as G; [|exact (G s)]
    end.
    pose proof restore_from_checkpoint_grouped. grouped_tac. }
  destruct (init model_weights train_ds valid_ds test_ds (replica_id' =? 0) P
              world') as [[u|e0] st] eqn:I.
  - right. simpl in G0.
    set (body := if test P then bind test_ (fun _ => ret Returned)
                 else train fuel (max_steps P)) in E.
    assert (grouped body) as GB.
    { subst body. destruct (test P).
      - pose proof test_grouped. grouped_tac.
      - apply train_loop_grouped. }
    specialize (GB st). unfold same_group in GB.
    destruct (body st) as [[l|e1] st1] eqn:B.
    + unfold try_except in E. rewrite B in E. discriminate.
    + rewrite (mytrain_handler_catches body st st1 e1 B) in E.
      simpl in GB. rewrite GB, G0 in E.
      destruct (process_group world') eqn:PG; [discriminate|].
      simpl in E. injection E as <-.
      subst world'.
      destruct (Z.ltb_spec 1 replica_count) as [L|L]; [discriminate|].
      split; [lia|]. split; [exact PG|]. eauto.
  - left. simpl in E. injection E as ->. reflexivity.
Qed.

End HandlerFacts.

(* ================================================================== *)
(** * Facts about utils_for_inference.py *)

Section SegmentFacts.
Context {F : Type} {num : Num F}.

Lemma py_slice_inside {A} (l : list A) (s n : Z) :
  0 <= s -> 0 <= n -> s + n <= Z.of_nat (length l) ->
  py_slice l s (s + n) = firstn (Z.to_nat n) (skipn (Z.to_nat s) l)
  /\ Z.of_nat (length (py_slice l s (s + n))) = n.
Proof.
  intros S N L. unfold py_slice, slice_bound.
  destruct (Z.ltb_spec s 0); [lia|].
  destruct (Z.ltb_spec (s + n) 0); [lia|].
  rewrite !Z.min_l by lia.
  replace (s + n - s) with n by lia.
  split; [reflexivity|].
  rewrite length_firstn, length_skipn. lia.
Qed.

(** X12: [sample_segment] on a tensor of [T] columns.  When
    [0 <= n_samples < T] it returns, for every row, the [n_samples]
    consecutive samples from [start], with [0 <= start] and
    [end = start + n_samples <= T].  Otherwise it returns the audio as it
    is, with the indices [(0, T - 1)], which span one sample less than
    the audio.  [ret_idx] changes nothing but the presence of the
    indices. *)
Theorem sample_segment_window (randint : Z -> Z -> Z) (audio : Tensor2 F)
    (n_samples : Z) :
  (forall a b, a <= b -> a <= randint a b <= b) ->
  Forall (fun row => Z.of_nat (length row) = shape1 audio) audio ->
  0 <= n_samples ->
  let T := shape1 audio in
  exists new_audio start end_,
    sample_segment randint audio n_samples true
    = (new_audio, Some (start, end_))
    /\ sample_segment randint audio n_samples false = (new_audio, None)
    /\ (n_samples < T ->
        0 <= start /\ end_ = start + n_samples /\ end_ <= T
        /\ new_audio
           = map (fun row => firstn (Z.to_nat n_samples)
                               (skipn (Z.to_nat start) row)) audio
        /\ Forall (fun row => Z.of_nat (length row) = n_samples) new_audio)
    /\ (T <= n_samples -> new_audio = audio /\ start = 0 /\ end_ = T - 1).
Proof.
  intros R Rect N T. unfold sample_segment. fold T.
  destruct (Z.ltb_spec n_samples T) as [L|L].
  - pose proof (R 0 (T - n_samples) ltac:(lia)) as [R1 R2].
    set (start := randint 0 (T - n_samples)) in *.
    exists (map (fun row => py_slice row start (start + n_samples)) audio),
      start, (start + n_samples).
    split; [reflexivity|]. split; [reflexivity|].
    split; [|lia]. intros _.
    split; [exact R1|]. split; [reflexivity|]. split; [lia|].
    split.
    + apply map_ext_in. intros row In.
      rewrite Forall_forall in Rect. specialize (Rect row In). fold T in Rect.
      apply py_slice_inside; lia.
    + rewrite Forall_forall. intros row' In.
      apply in_map_iff in In. destruct In as [row [<- In]].
      rewrite Forall_forall in Rect. specialize (Rect row In). fold T in Rect.
      apply py_slice_inside; lia.
  - exists audio, 0, (T - 1).
    split; [reflexivity|]. split; [reflexivity|].
    split; [lia|]. intros _. repeat split.
Qed.

End SegmentFacts.

Section OverlapFacts.
Context {F : Type} {num : Num F} {rnd : Round F}.

Lemma desirable_phonemes_range (n : Z) :
  1 <= n ->
  1 <= Z.abs ((- n) / 3) /\ 3 * (Z.abs ((- n) / 3) - 1) < n
  /\ n <= 3 * Z.abs ((- n) / 3).
Proof.
  intros N.
  pose proof (Z.div_mod (- n) 3 ltac:(lia)) as D.
  pose proof (Z.mod_pos_bound (- n) 3 ltac:(lia)) as B.
  lia.
Qed.

Lemma overlap_walk_choice (start_p : Z) (half_window : F)
    (info : list (Interval F)) :
  forall (j : nat) (p : Interval F),
    nth_error info j = Some p ->
    exists (k : nat) (q : Interval F),
      (k <= j)%nat
      /\ nth_error info k = Some q
      /\ overlap_walk start_p half_window info j (overlap_of start_p p)
         = Value (overlap_of start_p q)
      /\ (forall (i : nat) (r : Interval F),
             (k < i <= j)%nat -> nth_error info i = Some r ->
             fltb half_window (overlap_of start_p r) = true)
      /\ (k = 0%nat \/ fltb half_window (overlap_of start_p q) = false).
Proof.
  induction j as [|j IH]; intros p E.
  - exists 0%nat, p. simpl. repeat split; auto. intros; lia.
  - simpl.
    destruct (fltb half_window (overlap_of start_p p)) eqn:C.
    + assert (j < length info)%nat as Lt.
      { apply Nat.lt_succ_l. apply nth_error_Some. congruence. }
      destruct (nth_error info j) as [p'|] eqn:E';
        [|apply nth_error_None in E'; lia].
      destruct (IH p' eq_refl) as [k [q [K [Q [Wk [Above Stop]]]]]].
      exists k, q. repeat split; auto.
      intros i r I Er.
      destruct (Nat.eq_dec i (S j)) as [->|Ne].
      * congruence.
      * apply (Above i r); [lia|assumption].
    + exists (S j), p. repeat split; auto. intros; lia.
Qed.

Lemma get_overlap_duration_nonempty (start_p : Z) (info : list (Interval F))
    (window_length : Z) :
  info <> [] ->
  let half_window := fdiv (of_int window_length) (of_int 2) in
  exists (k : nat) (q : Interval F),
    (3 * k < length info)%nat
    /\ nth_error info k = Some q
    /\ (forall (i : nat) (r : Interval F),
           (k < i)%nat -> (3 * i < length info)%nat ->
           nth_error info i = Some r ->
           fltb half_window (overlap_of start_p r) = true)
    /\ (k = 0%nat \/ fltb half_window (overlap_of start_p q) = false)
    /\ get_overlap_duration start_p info window_length
       = match fround (overlap_of start_p q), fround half_window with
         | Some a, Some b => Value (Z.min a b)
         | _, _ => Error RoundError
         end.
Proof.
  intros NE half_window.
  assert (1 <= Z.of_nat (length info)) as N.
  { destruct info; [congruence|]. simpl. lia. }
  destruct (desirable_phonemes_range _ N) as [D1 [D2 D3]].
  unfold get_overlap_duration. fold half_window.
  destruct (Z.leb_spec 1 (Z.of_nat (length info))) as [_|]; [|lia].
  destruct (Z.leb_spec 1 (Z.abs (- Z.of_nat (length info) / 3))) as [_|];
    [|lia].
  cbn [negb].
  set (d := Z.abs (- Z.of_nat (length info) / 3)) in *.
  destruct (nth_error info (Z.to_nat (d - 1))) as [p|] eqn:E;
    [|apply nth_error_None in E; lia].
  destruct (overlap_walk_choice start_p half_window info _ p E)
    as [k [q [K [Q [Wk [Above Stop]]]]]].
  exists k, q. rewrite Wk. cbn [py_bind].
  split; [lia|]. split; [exact Q|]. split; [|split; [exact Stop|reflexivity]].
  intros i r I1 I2 Er. apply (Above i r); [lia|exact Er].
Qed.

(** X13: [get_overlap_duration] on a list that is not empty never fails
    an assertion or an index.  The phoneme whose end it takes is among
    the first third of the list (index [k] with [3k < len]): the last of
    these whose end lies within half a window of [start_p], or the first
    phoneme when none does.  The result is that end, rounded, and at
    most the rounded half window. *)
Theorem get_overlap_duration_choice (start_p : Z) (info : list (Interval F))
    (window_length : Z) :
  info <> [] ->
  let half_window := fdiv (of_int window_length) (of_int 2) in
  exists (k : nat) (q : Interval F),
    (3 * k < length info)%nat
    /\ nth_error info k = Some q
    /\ (forall (i : nat) (r : Interval F),
           (k < i)%nat -> (3 * i < length info)%nat ->
           nth_error info i = Some r ->
           fltb half_window (overlap_of start_p r) = true)
    /\ (k = 0%nat \/ fltb half_window (overlap_of start_p q) = false)
    /\ get_overlap_duration start_p info window_length
       = match fround (overlap_of start_p q), fround half_window with
         | Some a, Some b => Value (Z.min a b)
         | _, _ => Error RoundError
         end.
Proof. apply get_overlap_duration_nonempty. Qed.

End OverlapFacts.

Section BuildFacts.
Context {F : Type} {num : Num F} {rnd : Round F}.

Lemma length_concat_repeat (e : Tensor1 F) (n : nat) :
  length (concat (repeat e n)) = (n * length e)%nat.
Proof.
  induction n as [|n IH]; simpl; [reflexivity|].
  rewrite length_app, IH. reflexivity.
Qed.

(** What a taking branch does to the four variables. *)
Lemma take_value (phoneme : Interval F) (cur_energy : Tensor1 F)
    (total : Z) (acc acc' : Taken F) :
  take phoneme cur_energy total acc = Value acc' ->
  0 <= total
  /\ list_info_taken_phonemes acc'
     = list_info_taken_phonemes acc ++ [phoneme]
  /\ length (list_taken_phonemes acc')
     = S (length (list_taken_phonemes acc))
  /\ length (conditioned_phonemes_signal acc')
     = (length (conditioned_phonemes_signal acc) + Z.to_nat total)%nat
  /\ length (conditioned_energy_signal acc')
     = (length (conditioned_energy_signal acc)
        + Z.to_nat total * length cur_energy)%nat.
Proof.
  unfold take, build_phoneme_and_energy_representation.
  destruct (dict_get phoneme_to_index_dict (mark phoneme)) as [index|e];
    [|discriminate].
  cbn [py_bind].
  destruct (Z.ltb_spec total 0) as [L|L]; [discriminate|].
  cbn [py_bind fst snd]. intros E. injection E as <-.
  cbn [list_info_taken_phonemes list_taken_phonemes
       conditioned_phonemes_signal conditioned_energy_signal].
  rewrite !length_app, repeat_length, length_concat_repeat. simpl.
  repeat split; lia.
Qed.

Lemma take_known (phoneme : Interval F) (cur_energy : Tensor1 F)
    (total : Z) (acc : Taken F) :
  known phoneme -> 0 <= total ->
  exists acc', take phoneme cur_energy total acc = Value acc'.
Proof.
  intros [index K] T.
  unfold take, build_phoneme_and_energy_representation.
  rewrite K. cbn [py_bind].
  destruct (Z.ltb_spec total 0) as [L|L]; [lia|].
  cbn [py_bind]. eexists. reflexivity.
Qed.

Lemma take_error (phoneme : Interval F) (cur_energy : Tensor1 F)
    (total : Z) (acc : Taken F) (e : PyExn) :
  take phoneme cur_energy total acc = Error e ->
  e = KeyError (mark phoneme) \/ (e = NegativeDimension /\ total < 0).
Proof.
  unfold take, build_phoneme_and_energy_representation.
  assert (forall d, dict_get d (mark phoneme) = Error e ->
                    e = KeyError (mark phoneme)) as D.
  { induction d as [|[k v] d IH]; simpl.
    - intros E. injection E as <-. reflexivity.
    - destruct (String.eqb k (mark phoneme)); [discriminate|exact IH]. }
  destruct (dict_get phoneme_to_index_dict (mark phoneme)) as [index|e0] eqn:G.
  - cbn [py_bind].
    destruct (Z.ltb_spec total 0) as [L|L]; cbn [py_bind]; [|discriminate].
    intros E. injection E as <-. right. split; [reflexivity|exact L].
  - cbn [py_bind]. intros E. injection E as E. subst e0. left.
    exact (D _ G).
Qed.

(** One turn of the loop: the four taking branches take the length of
    what the interval and the window share, and the last [else] is never
    reached. *)
Lemma build_loop_step (start_frame end_frame sr : Z) (phoneme : Interval F)
    (cur_energy : Tensor1 F) (rest : list (Interval F * Tensor1 F))
    (acc : Taken F) (s e : Z) :
  frames_of sr phoneme = Some (s, e) ->
  (end_frame <= s
   /\ build_loop start_frame end_frame sr ((phoneme, cur_energy) :: rest) acc
      = Value acc)
  \/ (s < end_frame /\ e <= start_frame
      /\ build_loop start_frame end_frame sr ((phoneme, cur_energy) :: rest)
           acc
         = build_loop start_frame end_frame sr rest acc)
  \/ (s < end_frame /\ start_frame < e
      /\ build_loop start_frame end_frame sr ((phoneme, cur_energy) :: rest)
           acc
         = py_bind
             (take phoneme cur_energy
                (Z.min e end_frame - Z.max s start_frame) acc)
             (build_loop start_frame end_frame sr rest)).
Proof.
  intros Fr. cbn [build_loop]. rewrite Fr. rewrite !Z.geb_leb.
  destruct (Z.leb_spec end_frame s) as [A|A]; [left; split; [lia|reflexivity]|].
  destruct (Z.leb_spec e start_frame) as [B|B];
    [right; left; repeat split; try lia|].
  right; right. split; [lia|]. split; [lia|].
  destruct (Z.leb_spec start_frame s) as [C|C].
  - destruct (Z.leb_spec e end_frame) as [D|D].
    + rewrite Z.min_l, Z.max_l by lia. reflexivity.
    + rewrite Z.min_r, Z.max_l by lia. reflexivity.
  - destruct (Z.leb_spec s start_frame) as [C'|C']; [|lia].
    destruct (Z.leb_spec end_frame e) as [D|D].
    + rewrite Z.min_r, Z.max_r by lia. reflexivity.
    + rewrite Z.min_l, Z.max_r by lia. reflexivity.
Qed.

Lemma build_loop_round_error (start_frame end_frame sr : Z)
    (phoneme : Interval F) (cur_energy : Tensor1 F)
    (rest : list (Interval F * Tensor1 F)) (acc : Taken F) :
  frames_of sr phoneme = None ->
  build_loop start_frame end_frame sr ((phoneme, cur_energy) :: rest) acc
  = Error RoundError.
Proof. intros Fr. cbn [build_loop]. rewrite Fr. reflexivity. Qed.

Lemma build_loop_errors (start_frame end_frame sr : Z) :
  forall (zipped : list (Interval F * Tensor1 F)) (acc : Taken F) (x : PyExn),
    build_loop start_frame end_frame sr zipped acc = Error x ->
    x = RoundError \/ x = NegativeDimension \/ exists key, x = KeyError key.
Proof.
  induction zipped as [|[p ce] rest IH]; intros acc x E; [discriminate|].
  destruct (frames_of sr p) as [[s e]|] eqn:Fr.
  - destruct (build_loop_step start_frame end_frame sr p ce rest acc s e Fr)
      as [[_ St]|[[_ [_ St]]|[_ [_ St]]]]; rewrite St in E.
    + discriminate.
    + eapply IH; eassumption.
    + destruct (take p ce _ acc) as [acc1|x1] eqn:Tk; cbn [py_bind] in E.
      * eapply IH; eassumption.
      * injection E as ->. apply take_error in Tk.
        destruct Tk as [->|[-> _]]; eauto.
  - rewrite build_loop_round_error in E by exact Fr.
    injection E as <-. auto.
Qed.

(** X14: the branch [assert False, "There is at least one missed case"]
    is dead code, and the function indexes no list: it can fail with a
    [KeyError] of the dictionary, in [round], on a tensor of negative
    length or at one of its three final assertions, and in no other
    way. *)
Theorem build_failures (start_frame end_frame : Z)
    (phonemes_a : list (Interval F)) (Energy_a : Tensor2 F) (sr : Z)
    (x : PyExn) :
  Build_excisting_phonemes_sec_approach start_frame end_frame phonemes_a
    Energy_a sr = Error x ->
  x <> AssertionFailed MissedCase
  /\ (x = RoundError \/ x = NegativeDimension
      \/ (exists key, x = KeyError key)
      \/ (exists n, x = AssertionFailed
                          (SignalLength n (end_frame - start_frame))
                    /\ n <> end_frame - start_frame)
      \/ (exists m, x = AssertionFailed
                          (EnergyLength (end_frame - start_frame) m)
                    /\ m <> end_frame - start_frame)
      \/ x = AssertionFailed NoPhonemes).
Proof.
  unfold Build_excisting_phonemes_sec_approach.
  destruct (build_loop start_frame end_frame sr (combine phonemes_a Energy_a)
              nothing_taken) as [acc|x0] eqn:L; cbn [py_bind].
  - destruct (Z.eqb_spec (Z.of_nat (length (conditioned_phonemes_signal acc)))
                (end_frame - start_frame)) as [N|N]; cbn [negb].
    + rewrite N.
      destruct (Z.eqb_spec (end_frame - start_frame)
                  (Z.of_nat (length (conditioned_energy_signal acc))))
        as [M|M]; cbn [negb].
      * destruct (0 <? Z.of_nat (length (list_taken_phonemes acc)));
          cbn [negb]; [discriminate|].
        intros E. injection E as <-. split; [discriminate|]. tauto.
      * intros E. injection E as <-. split; [discriminate|].
        do 4 right. left. eexists. split; [reflexivity|]. congruence.
    + intros E. injection E as <-. split; [discriminate|].
      do 3 right. left. eexists. split; [reflexivity|]. exact N.
  - intros E. injection E as ->.
    apply build_loop_errors in L.
    destruct L as [->|[->|[key ->]]]; (split; [discriminate|]); eauto 6.
Qed.

End BuildFacts.

Section BuildResults.
Context {F : Type} {num : Num F} {rnd : Round F}.

(** The loop takes as many index pairs as intervals, and every interval
    it takes has samples in the window. *)
Lemma build_loop_taken (start_frame end_frame sr : Z) :
  forall (zipped : list (Interval F * Tensor1 F)) (acc acc' : Taken F),
    build_loop start_frame end_frame sr zipped acc = Value acc' ->
    length (list_taken_phonemes acc) = length (list_info_taken_phonemes acc) ->
    Forall (fun p => overlaps sr start_frame end_frame p = true)
      (list_info_taken_phonemes acc) ->
    length (list_taken_phonemes acc') = length (list_info_taken_phonemes acc')
    /\ Forall (fun p => overlaps sr start_frame end_frame p = true)
         (list_info_taken_phonemes acc').
Proof.
  induction zipped as [|[p ce] rest IH]; intros acc acc' E Len Ov.
  - injection E as <-. auto.
  - destruct (frames_of sr p) as [[s e]|] eqn:Fr;
      [|rewrite build_loop_round_error in E by exact Fr; discriminate].
    destruct (build_loop_step start_frame end_frame sr p ce rest acc s e Fr)
      as [[_ St]|[[_ [_ St]]|[A [B St]]]]; rewrite St in E.
    + injection E as <-. auto.
    + eapply IH; eassumption.
    + destruct (take p ce _ acc) as [acc1|x1] eqn:Tk; cbn [py_bind] in E;
        [|discriminate].
      apply take_value in Tk. destruct Tk as [_ [I [T _]]].
      apply (IH acc1 acc' E).
      * rewrite T, I, length_app. simpl. lia.
      * rewrite I. apply Forall_app. split; [exact Ov|].
        constructor; [|constructor].
        unfold overlaps. rewrite Fr.
        apply andb_true_intro. split; apply Z.ltb_lt; assumption.
Qed.

(** With energies that are vectors of [L] elements, the energy signal is
    [L] times as long as the phoneme signal. *)
Lemma build_loop_energy (start_frame end_frame sr : Z) (L : nat) :
  forall (zipped : list (Interval F * Tensor1 F)) (acc acc' : Taken F),
    Forall (fun pe => length (snd pe) = L) zipped ->
    build_loop start_frame end_frame sr zipped acc = Value acc' ->
    length (conditioned_energy_signal acc)
    = (L * length (conditioned_phonemes_signal acc))%nat ->
    length (conditioned_energy_signal acc')
    = (L * length (conditioned_phonemes_signal acc'))%nat.
Proof.
  induction zipped as [|[p ce] rest IH]; intros acc acc' A E Len.
  - injection E as <-. exact Len.
  - apply Forall_cons_iff in A. destruct A as [Lce A']. simpl in Lce.
    destruct (frames_of sr p) as [[s e]|] eqn:Fr;
      [|rewrite build_loop_round_error in E by exact Fr; discriminate].
    destruct (build_loop_step start_frame end_frame sr p ce rest acc s e Fr)
      as [[_ St]|[[_ [_ St]]|[_ [_ St]]]]; rewrite St in E.
    + injection E as <-. exact Len.
    + eapply IH; eassumption.
    + destruct (take p ce _ acc) as [acc1|x1] eqn:Tk; cbn [py_bind] in E;
        [|discriminate].
      apply take_value in Tk. destruct Tk as [_ [_ [_ [S1 S2]]]].
      apply (IH acc1 acc' A' E). rewrite S1, S2, Len. lia.
Qed.

Lemma combine_snd_Forall {A B} (P : B -> Prop) (l : list A) (m : list B) :
  Forall P m -> Forall (fun ab => P (snd ab)) (combine l m).
Proof.
  intros H. revert l. induction H as [|b m Pb H IH]; intros [|a l]; simpl;
    constructor; auto.
Qed.

Lemma build_value (start_frame end_frame : Z) (phonemes_a : list (Interval F))
    (Energy_a : Tensor2 F) (sr : Z)
    (r : Tensor2 F * list (Interval F) * Tensor2 F) :
  Build_excisting_phonemes_sec_approach start_frame end_frame phonemes_a
    Energy_a sr = Value r ->
  exists acc,
    build_loop start_frame end_frame sr (combine phonemes_a Energy_a)
      nothing_taken = Value acc
    /\ r = ([conditioned_phonemes_signal acc], list_info_taken_phonemes acc,
            [conditioned_energy_signal acc])
    /\ Z.of_nat (length (conditioned_phonemes_signal acc))
       = end_frame - start_frame
    /\ length (conditioned_energy_signal acc)
       = length (conditioned_phonemes_signal acc)
    /\ (0 < length (list_taken_phonemes acc))%nat.
Proof.
  unfold Build_excisting_phonemes_sec_approach.
  destruct (build_loop start_frame end_frame sr (combine phonemes_a Energy_a)
              nothing_taken) as [acc|x0] eqn:L; cbn [py_bind]; [|discriminate].
  destruct (Z.eqb_spec (Z.of_nat (length (conditioned_phonemes_signal acc)))
              (end_frame - start_frame)) as [N|N]; cbn [negb]; [|discriminate].
  destruct (Z.eqb_spec (Z.of_nat (length (conditioned_phonemes_signal acc)))
              (Z.of_nat (length (conditioned_energy_signal acc))))
    as [M|M]; cbn [negb]; [|discriminate].
  destruct (Z.ltb_spec 0 (Z.of_nat (length (list_taken_phonemes acc))))
    as [T|T]; cbn [negb]; [|discriminate].
  intros E. injection E as <-. exists acc. repeat split; try lia.
Qed.

(** X15: what [Build_excisting_phonemes_sec_approach] returns, when it
    returns: one row of exactly [end_frame - start_frame] phoneme values,
    one row of as many energy values, and a list of intervals that is not
    empty, each with samples in the window.  So [get_overlap_duration],
    called on that list, fails neither of its assertions nor an index:
    it returns, or [round] raises. *)
Theorem build_result_feeds_overlap (start_frame end_frame : Z)
    (phonemes_a : list (Interval F)) (Energy_a : Tensor2 F) (sr : Z)
    (phonemes : Tensor2 F) (info : list (Interval F)) (energy : Tensor2 F) :
  Build_excisting_phonemes_sec_approach start_frame end_frame phonemes_a
    Energy_a sr = Value (phonemes, info, energy) ->
  (exists signal energy_signal,
      phonemes = [signal] /\ energy = [energy_signal]
      /\ Z.of_nat (length signal) = end_frame - start_frame
      /\ length energy_signal = length signal)
  /\ info <> []
  /\ Forall (fun p => overlaps sr start_frame end_frame p = true) info
  /\ forall start_p window_length,
       (exists z, get_overlap_duration start_p info window_length = Value z)
       \/ get_overlap_duration start_p info window_length = Error RoundError.
Proof.
  intros E. apply build_value in E.
  destruct E as [acc [L [R [N [M T]]]]]. injection R as -> -> ->.
  destruct (build_loop_taken start_frame end_frame sr _ _ _ L eq_refl
              (Forall_nil _)) as [Len Ov].
  assert (list_info_taken_phonemes acc <> []) as NE.
  { intros Z0. rewrite Z0 in Len. simpl in Len. lia. }
  split; [eauto 6|]. split; [exact NE|]. split; [exact Ov|].
  intros start_p window_length.
  destruct (get_overlap_duration_nonempty start_p _ window_length NE)
    as [k [q [_ [_ [_ [_ G]]]]]].
  rewrite G.
  destruct (fround (overlap_of start_p q)); [|right; reflexivity].
  destruct (fround _); [left; eauto|right; reflexivity].
Qed.

(** X16: with an [Energy_a] whose rows are vectors of two or more
    elements (the table that [PairedAudioDataset.__getitem__] passes has
    rows of 128) and a window that is not empty, the function never
    returns: the energy signal is that many times as long as the phoneme
    signal, and the assertions on the two lengths cannot both hold. *)
Theorem build_with_vector_energy_fails (start_frame end_frame : Z)
    (phonemes_a : list (Interval F)) (Energy_a : Tensor2 F) (sr : Z)
    (L : nat) :
  (2 <= L)%nat ->
  Forall (fun row => length row = L) Energy_a ->
  start_frame <> end_frame ->
  exists x,
    Build_excisting_phonemes_sec_approach start_frame end_frame phonemes_a
      Energy_a sr = Error x.
Proof.
  intros L2 Rows NE.
  destruct (Build_excisting_phonemes_sec_approach start_frame end_frame
              phonemes_a Energy_a sr) as [r|x] eqn:E; [|eauto].
  exfalso. apply build_value in E.
  destruct E as [acc [Lp [_ [N [M _]]]]].
  pose proof (build_loop_energy start_frame end_frame sr L _ _ _
                (combine_snd_Forall _ phonemes_a Energy_a Rows) Lp) as En.
  simpl in En. specialize (En (eq_sym (Nat.mul_0_r L))).
  nia.
Qed.

End BuildResults.

Section BuildTiling.
Context {F : Type} {num : Num F} {rnd : Round F}.

Lemma tiles_beyond (sr start_frame end_frame to : Z) :
  forall (ps : list (Interval F)) (from : Z),
    tiles sr from ps to -> end_frame <= from ->
    filter (overlaps sr start_frame end_frame) ps = [].
Proof.
  induction ps as [|p ps IH]; intros from T B; [reflexivity|].
  destruct T as [e [Fr [Le T]]]. simpl.
  unfold overlaps at 1. rewrite Fr.
  destruct (Z.ltb_spec from end_frame); [lia|]. cbn [andb].
  apply (IH e T). lia.
Qed.

Lemma build_loop_tiling (start_frame end_frame sr to : Z) :
  start_frame < end_frame -> end_frame <= to ->
  forall (ps : list (Interval F)) (es : Tensor2 F) (acc : Taken F) (from : Z),
    tiles sr from ps to ->
    (length ps <= length es)%nat ->
    Forall (fun e => length e = 1%nat) es ->
    Forall known ps ->
    Z.of_nat (length (conditioned_phonemes_signal acc))
    = Z.max start_frame (Z.min from end_frame) - start_frame ->
    length (conditioned_energy_signal acc)
    = length (conditioned_phonemes_signal acc) ->
    exists acc',
      build_loop start_frame end_frame sr (combine ps es) acc = Value acc'
      /\ Z.of_nat (length (conditioned_phonemes_signal acc'))
         = end_frame - start_frame
      /\ length (conditioned_energy_signal acc')
         = length (conditioned_phonemes_signal acc')
      /\ list_info_taken_phonemes acc'
         = list_info_taken_phonemes acc
           ++ filter (overlaps sr start_frame end_frame) ps.
Proof.
  intros W1 W2.
  induction ps as [|p ps IH]; intros es acc from T Len One Kn Cov En.
  - simpl in T. subst from. exists acc. simpl.
    rewrite app_nil_r. repeat split; auto. lia.
  - destruct es as [|ce es]; [simpl in Len; lia|].
    destruct T as [e [Fr [Le T]]].
    apply Forall_cons_iff in One. destruct One as [One1 One].
    apply Forall_cons_iff in Kn. destruct Kn as [Kn1 Kn].
    simpl in Len. cbn [combine].
    destruct (build_loop_step start_frame end_frame sr p ce (combine ps es)
                acc from e Fr)
      as [[A St]|[[A [B St]]|[A [B St]]]]; unfold Tensor1 in St; rewrite St.
    + exists acc.
      rewrite (tiles_beyond sr start_frame end_frame to (p :: ps) from);
        [|exists e; auto|exact A].
      rewrite app_nil_r. repeat split; auto. lia.
    + destruct (IH es acc e T) as [acc' [L' [N' [M' I']]]]; auto; try lia.
      exists acc'. repeat split; auto.
      rewrite I'. simpl. unfold overlaps at 2. rewrite Fr.
      destruct (Z.ltb_spec start_frame e); [lia|].
      rewrite andb_false_r. reflexivity.
    + destruct (take_known p ce (Z.min e end_frame - Z.max from start_frame)
                  acc Kn1) as [acc1 Tk]; [lia|].
      rewrite Tk. cbn [py_bind].
      apply take_value in Tk. destruct Tk as [T0 [I [_ [S1 S2]]]].
      destruct (IH es acc1 e T) as [acc' [L' [N' [M' I']]]]; auto; try lia.
      exists acc'. repeat split; auto.
      rewrite I', I, <- app_assoc. simpl. unfold overlaps at 2. rewrite Fr.
      destruct (Z.ltb_spec from end_frame); [|lia].
      destruct (Z.ltb_spec start_frame e); [|lia].
      reflexivity.
Qed.

Lemma build_loop_info_grows (start_frame end_frame sr : Z) :
  forall (zipped : list (Interval F * Tensor1 F)) (acc acc' : Taken F),
    build_loop start_frame end_frame sr zipped acc = Value acc' ->
    (length (list_info_taken_phonemes acc)
     <= length (list_info_taken_phonemes acc'))%nat.
Proof.
  induction zipped as [|[p ce] rest IH]; intros acc acc' E.
  - injection E as <-. lia.
  - destruct (frames_of sr p) as [[s e]|] eqn:Fr;
      [|rewrite build_loop_round_error in E by exact Fr; discriminate].
    destruct (build_loop_step start_frame end_frame sr p ce rest acc s e Fr)
      as [[_ St]|[[_ [_ St]]|[_ [_ St]]]]; rewrite St in E.
    + injection E as <-. lia.
    + eapply IH; eassumption.
    + destruct (take p ce _ acc) as [acc1|x1] eqn:Tk; cbn [py_bind] in E;
        [|discriminate].
      apply take_value in Tk. destruct Tk as [_ [I _]].
      apply IH in E. rewrite I, length_app in E. simpl in E. lia.
Qed.

(** A loop that took no interval left the signal as it was. *)
Lemma build_loop_nothing (start_frame end_frame sr : Z) :
  forall (zipped : list (Interval F * Tensor1 F)) (acc acc' : Taken F),
    build_loop start_frame end_frame sr zipped acc = Value acc' ->
    length (list_info_taken_phonemes acc')
    = length (list_info_taken_phonemes acc) ->
    conditioned_phonemes_signal acc' = conditioned_phonemes_signal acc.
Proof.
  induction zipped as [|[p ce] rest IH]; intros acc acc' E Z0.
  - injection E as <-. reflexivity.
  - destruct (frames_of sr p) as [[s e]|] eqn:Fr;
      [|rewrite build_loop_round_error in E by exact Fr; discriminate].
    destruct (build_loop_step start_frame end_frame sr p ce rest acc s e Fr)
      as [[_ St]|[[_ [_ St]]|[_ [_ St]]]]; rewrite St in E.
    + injection E as <-. reflexivity.
    + eapply IH; eassumption.
    + destruct (take p ce _ acc) as [acc1|x1] eqn:Tk; cbn [py_bind] in E;
        [|discriminate].
      apply take_value in Tk. destruct Tk as [_ [I _]].
      apply build_loop_info_grows in E.
      rewrite I, length_app, Z0 in E. simpl in E. lia.
Qed.

(** X17: on a tier whose intervals follow one another without a gap and
    cover the window, with known marks and one energy number for each
    interval, [Build_excisting_phonemes_sec_approach] returns: its three
    assertions hold.  The signals have [end_frame - start_frame] values
    and the intervals returned are those of the tier with samples in
    the window, in order. *)
Theorem build_on_tiling (start_frame end_frame sr from to : Z)
    (phonemes_a : list (Interval F)) (Energy_a : Tensor2 F) :
  start_frame < end_frame ->
  tiles sr from phonemes_a to ->
  from <= start_frame -> end_frame <= to ->
  (length phonemes_a <= length Energy_a)%nat ->
  Forall (fun e => length e = 1%nat) Energy_a ->
  Forall known phonemes_a ->
  exists signal energy_signal,
    Build_excisting_phonemes_sec_approach start_frame end_frame phonemes_a
      Energy_a sr
    = Value ([signal],
             filter (overlaps sr start_frame end_frame) phonemes_a,
             [energy_signal])
    /\ Z.of_nat (length signal) = end_frame - start_frame
    /\ length energy_signal = length signal
    /\ filter (overlaps sr start_frame end_frame) phonemes_a <> [].
Proof.
  intros W T B1 B2 Len One Kn.
  destruct (build_loop_tiling start_frame end_frame sr to W B2 phonemes_a
              Energy_a nothing_taken from T Len One Kn)
    as [acc [L [N [M I]]]]; [simpl; lia|reflexivity|].
  simpl in I.
  destruct (build_loop_taken start_frame end_frame sr _ _ _ L eq_refl
              (Forall_nil _)) as [LenT _].
  assert (list_info_taken_phonemes acc <> []) as NE.
  { intros Z0.
    rewrite (build_loop_nothing start_frame end_frame sr _ _ _ L) in N.
    - simpl in N. lia.
    - rewrite Z0. reflexivity. }
  exists (conditioned_phonemes_signal acc), (conditioned_energy_signal acc).
  unfold Build_excisting_phonemes_sec_approach. rewrite L. cbn [py_bind].
  rewrite N, Z.eqb_refl. cbn [negb].
  rewrite M, <- N, Z.eqb_refl. cbn [negb].
  destruct (Z.ltb_spec 0 (Z.of_nat (length (list_taken_phonemes acc))))
    as [P|P]; cbn [negb].
  - rewrite I. repeat split; auto. rewrite <- I. exact NE.
  - exfalso. destruct (list_info_taken_phonemes acc); [congruence|].
    simpl in LenT. lia.
Qed.

End BuildTiling.

(* ================================================================== *)
(** * Concrete instances *)

Module Checks.
Import Demo.


(** The value of that loss: (1+1)/2/2 + 4/5/2 = 9/10. *)
Example overlap_masked_loss_value :
  exists x, get_loss_with_overlap_mask params_q noise_q predicted_q [3; 0] = Ok x
            /\ (x == 9 # 10)%Q.
Proof. eexists. split; [reflexivity|]. vm_compute. reflexivity. Qed.

(** C3 on the schedule [1/2, 1/4]. *)
Lemma retention_curve_witness :
  let retention := init_noise_level [1 # 2; 1 # 4]%Q in
  length retention = 2%nat
  /\ (forall t, (t < 2)%nat ->
         (nth t retention 0 == spec_retention [1 # 2; 1 # 4] t)%Q)
  /\ (forall t, (S t < 2)%nat -> (nth (S t) retention 0 <= nth t retention 0)%Q)
  /\ Forall unit_half_open retention.
Proof.
  apply (retention_curve [1 # 2; 1 # 4]%Q).
  - discriminate.
  - repeat constructor.
Defined.





(** C2 on one example of two samples. *)
Lemma forward_noising_step_witness :
  let audio := [[of_int 1; of_int 2]] in
  let noise := [[fone; fone]] in
  let noisy := spec_forward_noise (noise_level learner_plain) [0%nat]
                 audio noise in
  train_step_noisy_audio (ext := ext) audio (learner_plain, world0)
    = (Ok ([0%nat], noise, noisy), (learner_plain, set_rng 2%nat world0))
  /\ valid_loss_noisy_audio (ext := ext) audio (learner_plain, world0)
     = train_step_noisy_audio (ext := ext) audio (learner_plain, world0)
  /\ length noisy = length audio
  /\ Forall (fun r => length r = 2%nat) noisy.
Proof.
  apply (forward_noising_step (ext := ext) [[of_int 1; of_int 2]] 2
           (learner_plain, world0) [0%nat] 1%nat [[fone; fone]] 2%nat).
  - reflexivity.
  - repeat constructor.
  - reflexivity.
  - reflexivity.
  - repeat constructor.
  - reflexivity.
  - reflexivity.
  - repeat constructor.
Defined.

(** C9 on that learner, whose coefficient is 0, and on one whose
    coefficient is 0.5. *)
Lemma aux_loss_coefficient_witness :
  let audio := [[of_int 1; of_int 2]] in
  let cond := [[fzero; fzero]] in
  (log_mel_spec learner_plain = None
   /\ fst (train_step (ext := ext) audio cond tt tt None
             (learner_plain, world0))
      = Ok (fone, fone, None)
   /\ valid_loss (ext := ext) audio cond tt tt None (learner_plain, world0)
      = (Ok (fone, fone, None), (learner_plain, set_rng 2%nat world0)))
  /\ (fst (train_step (ext := ext) audio cond tt tt None
             (learner_blend, world0))
      = Ok (blend half fone fone, fone, Some fone)
      /\ fst (valid_loss (ext := ext) audio cond tt tt None
                (learner_blend, world0))
         = Ok (blend half fone fone, fone, Some fone)).
Proof.
  intros audio cond. split.
  - destruct (aux_loss_coefficient (ext := ext) audio cond tt tt
                None learner_plain world0 [0%nat] 1%nat [[fone; fone]] 2%nat
                fone 1%nat fone) as [Zero _].
    + apply new_learner_as_constructed.
    + reflexivity.
    + repeat constructor.
    + reflexivity.
    + reflexivity.
    + reflexivity.
    + destruct (Zero eq_refl) as [A [B C]].
      split; [exact A|split].
      * rewrite B. reflexivity.
      * exact C.
  - destruct (aux_loss_coefficient (ext := ext) audio cond tt tt
                None learner_blend world0 [0%nat] 1%nat [[fone; fone]] 2%nat
                fone 1%nat fone) as [_ Pos].
    + apply new_learner_as_constructed.
    + reflexivity.
    + repeat constructor.
    + reflexivity.
    + reflexivity.
    + reflexivity.
    + destruct (Pos eq_refl) as [B C].
      split; [rewrite B|rewrite C]; reflexivity.
Defined.

(** C10 on a validation batch of one example, the training batch size
    being 2: the error 1 of the one unmasked sample, over the denominator
    1, is halved. *)
Lemma masked_loss_divides_by_train_batch_size_witness :
  let audio := [[of_int 1; of_int 2]] in
  let cond := [[fzero; fzero]] in
  let noise := [[fone; fone]] in
  let predicted := [[fzero; fzero]] in
  let ld := spec_masked_loss 0 2 2 noise predicted [1] in
  ld = half
  /\ get_loss_with_overlap_mask (params learner_masked) noise predicted [1]
     = Ok ld
  /\ exists loss loss_spec world',
       valid_loss (ext := ext) audio cond tt tt (Some [1])
         (learner_masked, world0)
       = (Ok (loss, ld, loss_spec), (learner_masked, world')).
Proof.
  intros audio cond noise predicted ld.
  split; [reflexivity|].
  apply (masked_loss_divides_by_train_batch_size (ext := ext) audio cond
           tt tt [1] 2 learner_masked world0 [0%nat] 1%nat noise 2%nat).
  - apply new_learner_as_constructed.
  - simpl. lia.
  - reflexivity.
  - repeat constructor.
  - reflexivity.
  - repeat constructor.
  - repeat constructor.
  - reflexivity.
  - reflexivity.
Defined.

(** C4 on a run whose second batch gives a NaN loss: [train] raises the
    error that names step 1; in a distributed run [mytrain] then returns,
    having printed its fixed line last. *)
Lemma nan_loss_is_fatal_witness :
  let st := nan_start world_distributed in
  let run := train_loop (ext := ext) 1 (Some 0) 0 (of_int 100) (of_int 100) in
  fst (run st) = Raise (NaNLoss 1)
  /\ fst (try_except run mytrain_handler st) = Ok Returned
  /\ firstn 2 (events (snd (snd (try_except run mytrain_handler st))))
     = [DestroyProcessGroup; Print "stratin exept"].
Proof.
  intros st run.
  pose (r1 := train_epoch_loop (ext := ext) [batch1 1 2 0]
                (fzero, fzero, fzero)
                (fst st, add_event (Print "start training") (snd st))).
  pose (r2 := train_step (ext := ext) [[of_int 1; of_int 2]]
                [[fzero; fzero]] tt tt (Some [2]) (snd r1)).
  destruct (nan_loss_is_fatal (ext := ext) 0 (Some 0) 0 (of_int 100)
              (of_int 100) (fst st) (snd st)
              [batch1 1 2 0] (batch1 1 2 2) []
              (half, fzero, fzero) (snd r1) (snd r2)
              S754_nan S754_nan None)
    as [R [H _]].
  - reflexivity.
  - vm_compute. reflexivity.
  - vm_compute. reflexivity.
  - reflexivity.
  - split; [|split].
    + change (run st) with (run (fst st, snd st)).
      unfold run. rewrite R. reflexivity.
    + change (try_except run mytrain_handler st)
        with (try_except run mytrain_handler (fst st, snd st)).
      unfold run. rewrite H. reflexivity.
    + change (try_except run mytrain_handler st)
        with (try_except run mytrain_handler (fst st, snd st)).
      unfold run. rewrite H. reflexivity.
Defined.

(** C4 as stated fails for an infinite loss: both training steps of the
    run have loss +inf, the epoch goes on to its end, the infinite epoch
    loss is logged and [mytrain] returns without its handler having run. *)
Lemma inf_loss_counterexample :
  let inf := S754_infinity false in
  let loader := [batch1 1 2 0; batch1 1 2 1] in
  let r := mytrain (ext := ext_inf) 0 2 (params_of 0 fzero (Some 0)) 0%nat
             loader None None 3 world0 in
  fst (train_step (ext := ext_inf) [[of_int 1; of_int 2]] [[fzero; fzero]]
         tt tt (Some [0]) (nan_start world_distributed))
    = Ok (inf, inf, None)
  /\ fisnan inf = false
  /\ fst r = Ok Returned
  /\ step (fst (snd r)) = 2
  /\ process_group (snd (snd r)) = true
  /\ events (snd (snd r))
     = [PrintInt 2; Print "choose to finish"; PrintInt 2;
        Print "choose to do checkpoint";
        AddScalar "train/grad_norm" fone 2; AddScalar "train/loss" inf 2;
        OptimizerStep; OptimizerStep; Print "start training";
        LogInfo "model size: {parameters}"; LogInfo "running in: {cwd}";
        LogInfo "training from scratch"].
Proof. vm_compute. repeat split. Qed.

(** C5 on a run that restored the checkpoint of step 0. *)
Lemma train_budget_zero_witness :
  let r := train (ext := ext) 5 (Some 0) budget0_start in
  fst r = Ok Returned
  /\ step (fst (snd r)) = Z.of_nat (length (train_ds (fst budget0_start)))
  /\ (1 <= length (train_ds (fst budget0_start)))%nat.
Proof.
  intros r.
  destruct (train_budget_zero (ext := ext) 4 (fst budget0_start)
              (snd budget0_start)) as [E B].
  - reflexivity.
  - subst r.
    change budget0_start with (fst budget0_start, snd budget0_start) at 1 2.
    rewrite E.
    destruct (train_body (ext := ext) 0 (of_int 100) (of_int 100)
                (fst budget0_start, snd budget0_start))
      as [[mins|e] st1] eqn:Body.
    + destruct (B mins st1 eq_refl) as [B1 B2].
      simpl. repeat split; assumption.
    + exfalso. revert Body. vm_compute. discriminate.
Defined.

(** C5 as stated fails: with [max_steps = 0] and the counter restored to
    0, the run makes a training step (the optimiser steps once and the
    counter reaches 1) before the budget is looked at. *)
Lemma budget_zero_counterexample :
  let r := mytrain (ext := ext) 0 0 params_budget0 0%nat [batch1 1 2 0]
             None None 5 (world_restored params_budget0) in
  step (fst budget0_start) = 0
  /\ In (LogLoaded 0) (events (snd budget0_start))
  /\ fst r = Ok Returned
  /\ step (fst (snd r)) = 1
  /\ weights (fst (snd r)) = 1%nat
  /\ In OptimizerStep (events (snd (snd r))).
Proof. vm_compute. intuition. Qed.

(** C7 on an empty working directory, on one whose checkpoint cannot be
    unpickled, and with a network the stored weights do not fit. *)
Lemma restore_absent_or_unreadable_witness :
  restore_from_checkpoint (ext := ext) (learner_plain, world0)
    = (Ok false,
       (learner_plain, add_event (LogInfo "training from scratch") world0))
  /\ restore_from_checkpoint (ext := ext) (learner_plain, world_unreadable)
     = (Raise UnpicklingError, (learner_plain, world_unreadable))
  /\ restore_from_checkpoint (ext := ext_strict)
       (learner_plain, world_restored params_budget0)
     = (Raise StateMismatch, (learner_plain, world_restored params_budget0))
  /\ exists st,
       init (ext := ext) 7%nat [batch1 1 2 0] None None true params_budget0
         world0 = (Ok tt, st)
       /\ step (fst st) = 0 /\ weights (fst st) = 7%nat
       /\ grad_norm (fst st) = None
       /\ In (LogInfo "training from scratch") (events (snd st)).
Proof.
  destruct (restore_absent_or_unreadable (ext := ext) learner_plain world0)
    as [A [_ [_ D]]].
  destruct (restore_absent_or_unreadable (ext := ext) learner_plain
              world_unreadable) as [_ [B _]].
  destruct (restore_absent_or_unreadable (ext := ext_strict) learner_plain
              (world_restored params_budget0)) as [_ [_ [C _]]].
  split; [|split; [|split]].
  - apply A. reflexivity.
  - apply (B UnpicklingError); reflexivity.
  - apply (C (mkStateDict 0 0%nat params_budget0) StateMismatch 0%nat);
      reflexivity.
  - apply D. reflexivity.
Defined.

End Checks.

(* ================================================================== *)
(** * Concrete instances of the further properties *)

Module ExtraChecks.
Import Demo Runs.

(** X4 on a learner with a test set of one batch. *)
Lemma test_with_test_set_raises_witness :
  exists e st',
    test_ (ext := ext) tested_start = (Raise e, st')
    /\ fst st' = fst tested_start
    /\ (eval_epoch (ext := ext) [batch1 1 2 0] tested_start = (Raise e, st')
        \/ (e = TypeError
            /\ exists x,
                 eval_epoch (ext := ext) [batch1 1 2 0] tested_start
                 = (Ok x, st'))).
Proof.
  apply (test_with_test_set_raises (ext := ext) tested_start [batch1 1 2 0]).
  reflexivity.
Defined.

(** X5 on two batches and a budget of three steps: two epochs, four
    steps. *)
Lemma train_budget_overshoot_witness :
  let st' := snd (train (ext := ext) 5 (Some 3) budget3_start) in
  let n := Z.of_nat (length (train_ds (fst budget3_start))) in
  1 <= n
  /\ 3 <= step (fst st')
  /\ exists k : Z,
       1 <= k <= Z.of_nat 5
       /\ step (fst st') = step (fst budget3_start) + k * n
       /\ (k = 1 \/ step (fst st') - n < 3).
Proof.
  intros st'.
  apply (train_budget_overshoot (ext := ext) 5 3 budget3_start st').
  vm_compute. reflexivity.
Defined.

Example train_budget_overshoot_value :
  step (fst (snd (train (ext := ext) 5 (Some 3) budget3_start))) = 4.
Proof. vm_compute. reflexivity. Qed.

(** X6 on the same run. *)
Lemma train_budget_terminates_witness :
  fst (train (ext := ext) 5 (Some 3) budget3_start) <> Ok OutOfFuel.
Proof.
  apply (train_budget_terminates (ext := ext) 5 3 budget3_start).
  - lia.
  - vm_compute. discriminate.
Defined.

(** X7 on a replica that is not the master. *)
Lemma non_master_never_saves_witness :
  fs (snd (snd (train (ext := ext) 5 (Some 3) replica_start)))
  = fs (snd replica_start)
  /\ process_group (snd (snd (train (ext := ext) 5 (Some 3) replica_start)))
     = process_group (snd replica_start).
Proof.
  apply (non_master_never_saves (ext := ext) 5 (Some 3) replica_start).
  reflexivity.
Defined.


(** X10: a negative margin; three overlaps for two rows; two overlaps for
    three rows. *)
Lemma masked_loss_errors_witness :
  get_loss_with_overlap_mask (params_of (-1) fzero None)
    [[fone; fone]] [[fzero; fzero]] [0] = Raise AssertionError
  /\ get_loss_with_overlap_mask params_q noise_q predicted_q [0; 0; 0]
     = Raise IndexError
  /\ get_loss_with_overlap_mask params_q three_rows three_rows [0; 0]
     = Raise ShapeError.
Proof.
  split; [|split].
  - apply (masked_loss_errors (params_of (-1) fzero None)
             [[fone; fone]] [[fzero; fzero]] [0]).
    simpl. lia.
  - apply (masked_loss_errors params_q noise_q predicted_q [0; 0; 0]).
    + simpl. lia.
    + reflexivity.
    + simpl. lia.
  - apply (masked_loss_errors params_q three_rows three_rows [0; 0]).
    + simpl. lia.
    + reflexivity.
    + simpl. lia.
Defined.

(** X11 on two rows of four samples, overlap [3; 0], margin 1: the first
    two samples of the first row are masked. *)
Lemma masked_samples_do_not_count_witness :
  get_loss_with_overlap_mask params_q noise_q predicted_q [3; 0]
  = get_loss_with_overlap_mask params_q noise_q' predicted_q [3; 0].
Proof.
  apply (masked_samples_do_not_count params_q 4 noise_q predicted_q
           noise_q' predicted_q [3; 0]);
    try reflexivity; try (repeat constructor).
  simpl. lia.
Defined.

(** X12 on a single process whose second batch gives a NaN loss. *)
Lemma mytrain_lets_through_witness :
  let P := params_of 0 fzero (Some 0) in
  let e := During (NaNLoss 1) ProcessGroupError in
  fst (init (ext := ext) 0%nat nan_loader None None true P world0) = Raise e
  \/ (1 <= 1 /\ process_group world0 = false
      /\ exists e0, e = During e0 ProcessGroupError).
Proof.
  intros P e.
  apply (mytrain_lets_through (ext := ext) 0 1 P 0%nat nan_loader None None
           3 world0 e).
  vm_compute. reflexivity.
Defined.

(** X13 on five samples, segments of two. *)
Lemma sample_segment_window_witness :
  let T := shape1 five_samples in
  exists new_audio start end_,
    sample_segment draw_upper five_samples 2 true
    = (new_audio, Some (start, end_))
    /\ sample_segment draw_upper five_samples 2 false = (new_audio, None)
    /\ (2 < T ->
        0 <= start /\ end_ = start + 2 /\ end_ <= T
        /\ new_audio
           = map (fun row => firstn (Z.to_nat 2) (skipn (Z.to_nat start) row))
               five_samples
        /\ Forall (fun row => Z.of_nat (length row) = 2) new_audio)
    /\ (T <= 2 -> new_audio = five_samples /\ start = 0 /\ end_ = T - 1).
Proof.
  apply (sample_segment_window draw_upper five_samples 2).
  - intros a b H. unfold draw_upper. lia.
  - repeat constructor.
  - lia.
Defined.

Example sample_segment_value :
  sample_segment draw_upper five_samples 2 true
  = ([[4; 5]]%Q, Some (3, 5))
  /\ sample_segment draw_upper five_samples 7 true
     = (five_samples, Some (0, 4)).
Proof. split; reflexivity. Qed.

(** X14 on the tier, with the window of 8000 samples. *)
Lemma get_overlap_duration_choice_witness :
  let half_window : Q := fdiv (of_int 8000) (of_int 2) in
  exists (k : nat) (q : Interval Q),
    (3 * k < length tier)%nat
    /\ nth_error tier k = Some q
    /\ (forall (i : nat) (r : Interval Q),
           (k < i)%nat -> (3 * i < length tier)%nat ->
           nth_error tier i = Some r ->
           fltb half_window (overlap_of 0 r) = true)
    /\ (k = 0%nat \/ fltb half_window (overlap_of 0 q) = false)
    /\ get_overlap_duration 0 tier 8000
       = match fround (overlap_of 0 q), fround half_window with
         | Some a, Some b => Value (Z.min a b)
         | _, _ => Error RoundError
         end.
Proof.
  apply (get_overlap_duration_choice 0 tier 8000).
  discriminate.
Defined.

(** The second interval ends at sample 8000, beyond the half window; the
    first ends at sample 2000. *)
Example get_overlap_duration_value :
  get_overlap_duration 0 tier 8000 = Value 2000
  /\ get_overlap_duration (F := Q) 0 [] 8000
     = Error (AssertionFailed NoPhonemeInWindow).
Proof. split; vm_compute; reflexivity. Qed.

(** X15 on a tier with an unknown mark. *)
Lemma build_failures_witness :
  let x := KeyError "QQ" in
  x <> AssertionFailed MissedCase
  /\ (x = RoundError \/ x = NegativeDimension
      \/ (exists key, x = KeyError key)
      \/ (exists n, x = AssertionFailed (SignalLength n (8 - 2))
                    /\ n <> 8 - 2)
      \/ (exists m, x = AssertionFailed (EnergyLength (8 - 2) m)
                    /\ m <> 8 - 2)
      \/ x = AssertionFailed NoPhonemes).
Proof.
  intros x.
  apply (build_failures 2 8 tier_unknown energies 16 x).
  vm_compute. reflexivity.
Defined.

(** X16 on the tier at 16 samples a second, window [2, 10). *)
Lemma build_result_feeds_overlap_witness :
  let info := [mkInterval (1 # 8) (1 # 2) "AA0";
               mkInterval (1 # 2) (3 # 4) "B"]%Q in
  (exists signal energy_signal : Tensor1 Q,
      [[2 # 72; 2 # 72; 2 # 72; 2 # 72; 2 # 72; 2 # 72; 20 # 72; 20 # 72]]%Q
      = [signal]
      /\ [[2; 2; 2; 2; 2; 2; 3; 3]]%Q = [energy_signal]
      /\ Z.of_nat (length signal) = 10 - 2
      /\ length energy_signal = length signal)
  /\ info <> []
  /\ Forall (fun p => overlaps 16 2 10 p = true) info
  /\ forall start_p window_length,
       (exists z, get_overlap_duration start_p info window_length = Value z)
       \/ get_overlap_duration start_p info window_length = Error RoundError.
Proof.
  intros info.
  apply (build_result_feeds_overlap 2 10 tier energies 16
           [[2 # 72; 2 # 72; 2 # 72; 2 # 72; 2 # 72; 2 # 72; 20 # 72; 20 # 72]]%Q
           info [[2; 2; 2; 2; 2; 2; 3; 3]]%Q).
  vm_compute. reflexivity.
Defined.

(** X17 on the same window, with energies of two elements. *)
Lemma build_with_vector_energy_fails_witness :
  exists x,
    Build_excisting_phonemes_sec_approach 2 10 tier energy_rows 16 = Error x.
Proof.
  apply (build_with_vector_energy_fails 2 10 tier energy_rows 16 2).
  - lia.
  - repeat constructor.
  - lia.
Defined.

Example build_with_vector_energy_value :
  Build_excisting_phonemes_sec_approach 2 10 tier energy_rows 16
  = Error (AssertionFailed (EnergyLength 8 16)).
Proof. vm_compute. reflexivity. Qed.

(** X18 on the tier, which runs from sample 0 to sample 16. *)
Lemma build_on_tiling_witness :
  exists signal energy_signal,
    Build_excisting_phonemes_sec_approach 2 10 tier energies 16
    = Value ([signal], filter (overlaps 16 2 10) tier, [energy_signal])
    /\ Z.of_nat (length signal) = 10 - 2
    /\ length energy_signal = length signal
    /\ filter (overlaps 16 2 10) tier <> [].
Proof.
  apply (build_on_tiling 2 10 16 0 16 tier energies).
  - lia.
  - unfold tier. cbn [tiles].
    exists 2. split; [vm_compute; reflexivity|split; [lia|]].
    exists 8. split; [vm_compute; reflexivity|split; [lia|]].
    exists 12. split; [vm_compute; reflexivity|split; [lia|]].
    exists 16. split; [vm_compute; reflexivity|split; [lia|]].
    reflexivity.
  - lia.
  - lia.
  - simpl. lia.
  - repeat constructor.
  - repeat constructor; eexists; reflexivity.
Defined.

End ExtraChecks.
